(** * node-spellchecker: the native binding (src/main.cc)

    A shallow embedding of the binding between the JavaScript host and the
    spellchecking engine: the two asynchronous workers, the controller
    object [Spellchecker] with its seven methods, and the queue of workers
    that Nan's [AsyncQueueWorker] feeds.

    What lies outside main.cc is taken as a parameter:
    - the engine, [SpellcheckerImplementation] (spellchecker.h);
    - V8's conversions between JavaScript strings and UTF-8 [std::string]s.
    Nan's [AsyncWorker] base class (nan.h) is written out as far as the
    workers rely on it. *)

From Stdlib Require Import String.
From Stdlib Require Import List ZArith Bool Arith Lia Permutation.
From Stdlib.Strings Require Byte.
From Stdlib Require DecimalString.
Import ListNotations.

Local Open Scope string_scope.
Local Open Scope list_scope.
Local Open Scope nat_scope.
Set Warnings "-register-all".

(** ** Values of the host *)

Abbreviation uint16_t := Z (only parsing).
Abbreviation std_string := string (only parsing).
Abbreviation uchar := Byte.byte (only parsing).

(** The JavaScript values that cross the binding.  A string is its sequence
    of 16-bit code units; a function and a Buffer carry an identity, a
    Buffer also its bytes. *)
Inductive Value : Type :=
| VUndefined
| VNull
| VBoolean (b : bool)
| VInteger (n : Z)
| VString (units : list uint16_t)
| VFunction (id : nat)
| VBuffer (id : nat) (data : list uchar)
| VError (message : std_string)
| VArray (elems : list Value)
| VObject (props : list (std_string * Value)).

Definition IsString (v : Value) : bool :=
  match v with VString _ => true | _ => false end.

Definition IsFunction (v : Value) : bool :=
  match v with VFunction _ => true | _ => false end.

(** [Handle<String>::Cast] does not check; the code units are read only
    after [IsString] has answered. *)
Definition units_of (v : Value) : list uint16_t :=
  match v with VString us => us | _ => [] end.

Definition String_Length (v : Value) : nat := length (units_of v).

(** [node::Buffer::HasInstance], [node::Buffer::Data] with
    [node::Buffer::Length]. *)
Definition Buffer_HasInstance (v : Value) : bool :=
  match v with VBuffer _ _ => true | _ => false end.

Definition Buffer_Data (v : Value) : list uchar :=
  match v with VBuffer _ d => d | _ => [] end.

(** [info[i]]: an index past the arguments reads [undefined]. *)
Definition arg (info : list Value) (i : nat) : Value := nth i info VUndefined.

(** [String::Write(buffer)] with its default arguments: every code unit of
    the string, then a terminating zero, over the start of the buffer. *)
Definition String_Write (v : Value) (buffer : list uint16_t) : list uint16_t :=
  let written := units_of v ++ [0%Z] in
  written ++ skipn (length written) buffer.

(** [Array::Set(index, value)]: JavaScript extends the array when the index
    lies past its end. *)
Definition Array_Set (index : nat) (v : Value) (a : list Value) : list Value :=
  if index <? length a
  then firstn index a ++ v :: skipn (S index) a
  else a ++ repeat VUndefined (index - length a) ++ [v].

(** [Nan::New<Array>(n)]. *)
Definition Array_New (n : nat) : list Value := repeat VUndefined n.

(** [Object::Set(key, value)]. *)
Definition Object_Set (key : std_string) (v : Value)
    (props : list (std_string * Value)) : list (std_string * Value) :=
  filter (fun kv => negb (String.eqb (fst kv) key)) props ++ [(key, v)].

(** The conversions V8 provides. *)
Record V8 : Type := {
  (** the [std::string] made from [*String::Utf8Value(v)] *)
  Utf8Value : Value -> std_string;
  (** [Nan::New<String>(data, size)] *)
  NewFromUtf8 : std_string -> list uint16_t
}.

(** ** The engine (spellchecker.h) *)

Record MisspelledRange : Type := { start : Z; end_ : Z }.

(** [uint32_t x = ...]: the conversion of an offset to 32 bits. *)
Definition to_uint32 (z : Z) : Z := z mod 2 ^ 32.

(** A call of an engine method returns, or faults (a C++ exception leaves
    it). *)
Inductive Outcome (A : Type) : Type :=
| Returns (a : A)
| Faults.
Arguments Returns {A} a.
Arguments Faults {A}.

Module Impl.
(** The virtual methods of [SpellcheckerImplementation], over an engine
    state [E].  A fault is provided for in the two methods that the workers
    call from a pool thread. *)
Record t (E : Type) : Type := {
  SetDictionary : std_string -> E -> bool * E;
  SetDictionaryToContents : list uchar -> E -> bool * E;
  IsMisspelled : std_string -> E -> bool * E;
  CheckSpelling : list uint16_t -> E -> Outcome (list MisspelledRange * E);
  GetCorrectionsForMisspelling : std_string -> E -> Outcome (list std_string * E);
  Add : std_string -> E -> E;
  Remove : std_string -> E -> E;
  GetAvailableDictionaries : std_string -> E -> list std_string * E
}.
Arguments SetDictionary {E}.
Arguments SetDictionaryToContents {E}.
Arguments IsMisspelled {E}.
Arguments CheckSpelling {E}.
Arguments GetCorrectionsForMisspelling {E}.
Arguments Add {E}.
Arguments Remove {E}.
Arguments GetAvailableDictionaries {E}.
End Impl.

(** What the engine is asked, in order. *)
Inductive EngineCall : Type :=
| asked_SetDictionary (language : std_string)
| asked_SetDictionaryToContents (data : list uchar)
| asked_IsMisspelled (word : std_string)
| asked_CheckSpelling (text : list uint16_t)
| asked_GetCorrectionsForMisspelling (word : std_string)
| asked_Add (word : std_string)
| asked_Remove (word : std_string)
| asked_GetAvailableDictionaries (path : std_string).

(** The object behind an [impl] pointer: the engine's state and the record
    of the calls it has received. *)
Record Engine (E : Type) : Type := {
  state : E;
  received : list EngineCall
}.
Arguments state {E}.
Arguments received {E}.

(** One [callback->Call(argc, argv)]. *)
Record Invocation : Type := {
  callee : Value;
  argv : list Value
}.

Section Engine_calls.
Context {E : Type} (eng : Impl.t E).

Definition asked (c : EngineCall) (e : E) (g : Engine E) : Engine E :=
  {| state := e; received := received g ++ [c] |}.

Definition impl_SetDictionary (language : std_string) (g : Engine E) : bool * Engine E :=
  let '(r, e) := Impl.SetDictionary eng language (state g) in
  (r, asked (asked_SetDictionary language) e g).

Definition impl_SetDictionaryToContents (data : list uchar) (g : Engine E) : bool * Engine E :=
  let '(r, e) := Impl.SetDictionaryToContents eng data (state g) in
  (r, asked (asked_SetDictionaryToContents data) e g).

Definition impl_IsMisspelled (word : std_string) (g : Engine E) : bool * Engine E :=
  let '(r, e) := Impl.IsMisspelled eng word (state g) in
  (r, asked (asked_IsMisspelled word) e g).

Definition impl_CheckSpelling (text : list uint16_t) (length : nat) (g : Engine E)
  : Outcome (list MisspelledRange * Engine E) :=
  let seen := firstn length text in
  match Impl.CheckSpelling eng seen (state g) with
  | Returns (r, e) => Returns (r, asked (asked_CheckSpelling seen) e g)
  | Faults => Faults
  end.

Definition impl_GetCorrectionsForMisspelling (word : std_string) (g : Engine E)
  : Outcome (list std_string * Engine E) :=
  match Impl.GetCorrectionsForMisspelling eng word (state g) with
  | Returns (r, e) => Returns (r, asked (asked_GetCorrectionsForMisspelling word) e g)
  | Faults => Faults
  end.

Definition impl_Add (word : std_string) (g : Engine E) : Engine E :=
  asked (asked_Add word) (Impl.Add eng word (state g)) g.

Definition impl_Remove (word : std_string) (g : Engine E) : Engine E :=
  asked (asked_Remove word) (Impl.Remove eng word (state g)) g.

Definition impl_GetAvailableDictionaries (path : std_string) (g : Engine E)
  : list std_string * Engine E :=
  let '(r, e) := Impl.GetAvailableDictionaries eng path (state g) in
  (r, asked (asked_GetAvailableDictionaries path) e g).
End Engine_calls.

(** ** The workers

    Both derive from [Nan::AsyncWorker], which holds the callback and the
    error message ([errmsg_], set only through [SetErrorMessage]).  The
    [impl] pointer of a worker is an alias of the controller's: the engine
    is reached through the one place where it is stored. *)

Module CheckSpellingWorker.
Record t : Type := {
  callback : Value;
  errmsg : option std_string;
  text : list uint16_t;
  misspelled_ranges : list MisspelledRange
}.

(** The constructor copies the vector it is given. *)
Definition new (callback : Value) (text : list uint16_t) : t :=
  {| callback := callback; errmsg := None; text := text; misspelled_ranges := [] |}.

Section Execute.
Context {E : Type} (eng : Impl.t E).

Definition Execute (w : t) (impl : Engine E) : Outcome (t * Engine E) :=
  match impl_CheckSpelling eng (text w) (length (text w)) impl with
  | Returns (r, impl') =>
      Returns ({| callback := callback w; errmsg := errmsg w;
                  text := text w; misspelled_ranges := r |}, impl')
  | Faults => Faults
  end.
End Execute.

(** The body of the iterator loop, [index] being [iter - begin]. *)
Fixpoint fill (index : nat) (iter : list MisspelledRange)
    (misspelledRanges : list Value) : list Value :=
  match iter with
  | [] => misspelledRanges
  | r :: rest =>
      let start := to_uint32 (start r) in
      let end_ := to_uint32 (end_ r) in
      let misspelled_range := Object_Set "end" (VInteger end_)
                                (Object_Set "start" (VInteger start) []) in
      fill (S index) rest (Array_Set index (VObject misspelled_range) misspelledRanges)
  end.

Definition HandleOKCallback (w : t) : Invocation :=
  let misspelledRanges := fill 0 (misspelled_ranges w) (Array_New 0) in
  {| callee := callback w; argv := [VNull; VArray misspelledRanges] |}.
End CheckSpellingWorker.

Module GetCorrectionsForMisspellingWorker.
Record t : Type := {
  callback : Value;
  errmsg : option std_string;
  word : std_string;
  corrections : list std_string
}.

Definition new (callback : Value) (word : std_string) : t :=
  {| callback := callback; errmsg := None; word := word; corrections := [] |}.

Section Execute.
Context {E : Type} (eng : Impl.t E).

Definition Execute (w : t) (impl : Engine E) : Outcome (t * Engine E) :=
  match impl_GetCorrectionsForMisspelling eng (word w) impl with
  | Returns (r, impl') =>
      Returns ({| callback := callback w; errmsg := errmsg w;
                  word := word w; corrections := r |}, impl')
  | Faults => Faults
  end.
End Execute.

Section HandleOKCallback.
Context (v8 : V8).

(** [for (size_t i = 0; i < corrections.size(); ++i)], with [todo]
    rounds left. *)
Fixpoint fill (todo i : nat) (corrections : list std_string)
    (result : list Value) : list Value :=
  match todo with
  | O => result
  | S todo' =>
      let word := nth i corrections EmptyString in
      let val := VString (NewFromUtf8 v8 word) in
      fill todo' (S i) corrections (Array_Set i val result)
  end.

Definition HandleOKCallback (w : t) : Invocation :=
  let size := length (corrections w) in
  let result := fill size 0 (corrections w) (Array_New size) in
  {| callee := callback w; argv := [VNull; VArray result] |}.
End HandleOKCallback.
End GetCorrectionsForMisspellingWorker.

(** A queued worker, by its dynamic class. *)
Inductive AsyncWorker : Type :=
| check_spelling (w : CheckSpellingWorker.t)
| get_corrections (w : GetCorrectionsForMisspellingWorker.t).

Definition worker_callback (w : AsyncWorker) : Value :=
  match w with
  | check_spelling w => CheckSpellingWorker.callback w
  | get_corrections w => GetCorrectionsForMisspellingWorker.callback w
  end.

Definition worker_errmsg (w : AsyncWorker) : option std_string :=
  match w with
  | check_spelling w => CheckSpellingWorker.errmsg w
  | get_corrections w => GetCorrectionsForMisspellingWorker.errmsg w
  end.

(** [AsyncWorker::HandleErrorCallback], which neither worker overrides. *)
Definition HandleErrorCallback (w : AsyncWorker) (msg : std_string) : Invocation :=
  {| callee := worker_callback w; argv := [VError msg] |}.

Section Workers.
Context {E : Type} (v8 : V8) (eng : Impl.t E).

(** The virtual [Execute]. *)
Definition Execute (w : AsyncWorker) (impl : Engine E) : Outcome (AsyncWorker * Engine E) :=
  match w with
  | check_spelling w =>
      match CheckSpellingWorker.Execute eng w impl with
      | Returns (w', impl') => Returns (check_spelling w', impl')
      | Faults => Faults
      end
  | get_corrections w =>
      match GetCorrectionsForMisspellingWorker.Execute eng w impl with
      | Returns (w', impl') => Returns (get_corrections w', impl')
      | Faults => Faults
      end
  end.

(** The virtual [HandleOKCallback]. *)
Definition HandleOKCallback (w : AsyncWorker) : Invocation :=
  match w with
  | check_spelling w => CheckSpellingWorker.HandleOKCallback w
  | get_corrections w => GetCorrectionsForMisspellingWorker.HandleOKCallback v8 w
  end.

(** [AsyncWorker::WorkComplete]: on the loop thread, after [Execute]. *)
Definition WorkComplete (w : AsyncWorker) : Invocation :=
  match worker_errmsg w with
  | None => HandleOKCallback w
  | Some msg => HandleErrorCallback w msg
  end.
End Workers.

(** ** The controller *)

(** How a method leaves: with its return value ([undefined] when none was
    set), or with a pending exception ([Nan::ThrowError]). *)
Inductive Completion : Type :=
| Returned (v : Value)
| Thrown (message : std_string).

(** The wrapped object: the engine it owns and the persistent handle
    [dictData], empty or holding one value. *)
Record Spellchecker (E : Type) : Type := {
  impl : Engine E;
  dictData : option Value
}.
Arguments impl {E}.
Arguments dictData {E}.

(** The host around one controller: the controller that [info.Holder()]
    unwraps to, the workers handed to [AsyncQueueWorker] whose [Execute]
    has not run yet, the workers whose [Execute] has finished and whose
    completion the loop thread has not run yet, and the callback
    invocations made so far. *)
Record Host (E : Type) : Type := {
  that : Spellchecker E;
  work_queue : list AsyncWorker;
  finished : list AsyncWorker;
  called : list Invocation
}.
Arguments that {E}.
Arguments work_queue {E}.
Arguments finished {E}.
Arguments called {E}.

Definition with_impl {E} (g : Engine E) (c : Spellchecker E) : Spellchecker E :=
  {| impl := g; dictData := dictData c |}.

(** [Persistent::Reset(isolate, value)]: the handle lets go of what it held
    and holds [value]. *)
Definition Reset {E} (v : Value) (c : Spellchecker E) : Spellchecker E :=
  {| impl := impl c; dictData := Some v |}.

Definition with_that {E} (c : Spellchecker E) (h : Host E) : Host E :=
  {| that := c; work_queue := work_queue h; finished := finished h; called := called h |}.

(** [Nan::AsyncQueueWorker(worker)]. *)
Definition AsyncQueueWorker {E} (w : AsyncWorker) (h : Host E) : Host E :=
  {| that := that h; work_queue := work_queue h ++ [w]; finished := finished h;
     called := called h |}.

Definition NAN_METHOD (E : Type) : Type := list Value -> Host E -> Completion * Host E.

Section Methods.
Context {E : Type} (v8 : V8) (eng : Impl.t E).

(** [Spellchecker()] wrapped by [New]; [created] is what the factory
    returns. *)
Definition New (created : E) : Host E :=
  {| that := {| impl := {| state := created; received := [] |}; dictData := None |};
     work_queue := [];
     finished := [];
     called := [] |}.

Definition SetDictionary : NAN_METHOD E := fun info h =>
  if length info <? 1 then (Thrown "Bad argument", h)
  else
    let that := that h in
    let pinned :=
      if 1 <? length info then
        if negb (Buffer_HasInstance (arg info 1))
        then inl "SetDictionary 2nd argument must be a Buffer"
        else inr (Reset (arg info 1) that, true)
      else inr (that, false) in
    match pinned with
    | inl message => (Thrown message, h)
    | inr (that, has_contents) =>
        let language := Utf8Value v8 (arg info 0) in
        let '(result, impl') :=
          if has_contents
          then impl_SetDictionaryToContents eng (Buffer_Data (arg info 1)) (impl that)
          else impl_SetDictionary eng language (impl that) in
        (Returned (VBoolean result), with_that (with_impl impl' that) h)
    end.

Definition IsMisspelled : NAN_METHOD E := fun info h =>
  if length info <? 1 then (Thrown "Bad argument", h)
  else
    let that := that h in
    let word := Utf8Value v8 (arg info 0) in
    let '(result, impl') := impl_IsMisspelled eng word (impl that) in
    (Returned (VBoolean result), with_that (with_impl impl' that) h).

Definition CheckSpellingAsync : NAN_METHOD E := fun info h =>
  if length info <? 1 then (Thrown "Bad argument", h)
  else
    let string := arg info 0 in
    if negb (IsString string) then (Thrown "Bad argument", h)
    else if String_Length string =? 0 then (Returned VUndefined, h)
    else
      let text := repeat 0%Z (String_Length string + 1) in
      let text := String_Write string text in
      let callback := arg info 1 in
      (Returned VUndefined,
       AsyncQueueWorker (check_spelling (CheckSpellingWorker.new callback text)) h).

Definition Add : NAN_METHOD E := fun info h =>
  if length info <? 1 then (Thrown "Bad argument", h)
  else
    let that := that h in
    let word := Utf8Value v8 (arg info 0) in
    (Returned VUndefined, with_that (with_impl (impl_Add eng word (impl that)) that) h).

Definition Remove : NAN_METHOD E := fun info h =>
  if length info <? 1 then (Thrown "Bad argument", h)
  else
    let that := that h in
    let word := Utf8Value v8 (arg info 0) in
    (Returned VUndefined, with_that (with_impl (impl_Remove eng word (impl that)) that) h).

(** [for (size_t i = 0; i < dictionaries.size(); ++i)], with [todo]
    rounds left. *)
Fixpoint fill_dictionaries (todo i : nat) (dictionaries : list std_string)
    (result : list Value) : list Value :=
  match todo with
  | O => result
  | S todo' =>
      let dict := nth i dictionaries EmptyString in
      fill_dictionaries todo' (S i) dictionaries
        (Array_Set i (VString (NewFromUtf8 v8 dict)) result)
  end.

(** The inner [std::string path] is a declaration of its own: it ends
    with the block and the outer [path] is the one passed on. *)
Definition GetAvailableDictionaries : NAN_METHOD E := fun info h =>
  let that := that h in
  let path := "." in
  let _ :=
    if 0 <? length info
    then (let path := Utf8Value v8 (arg info 0) in tt)
    else tt in
  let '(dictionaries, impl') := impl_GetAvailableDictionaries eng path (impl that) in
  let size := length dictionaries in
  let result := fill_dictionaries size 0 dictionaries (Array_New size) in
  (Returned (VArray result), with_that (with_impl impl' that) h).

Definition GetCorrectionsForMisspellingAsync : NAN_METHOD E := fun info h =>
  if length info <? 1 then (Thrown "Bad argument", h)
  else
    let word := Utf8Value v8 (arg info 0) in
    let callback := arg info 1 in
    (Returned VUndefined,
     AsyncQueueWorker
       (get_corrections (GetCorrectionsForMisspellingWorker.new callback word)) h).
End Methods.

(** The methods [Init] installs on the instance template. *)
Inductive Method : Type :=
| js_setDictionary
| js_getAvailableDictionaries
| js_getCorrectionsForMisspellingAsync
| js_isMisspelled
| js_checkSpellingAsync
| js_add
| js_remove.

(** What happens to a controller during its life.  The host calls a
    method.  A pool thread runs [Execute] of one of the queued workers:
    libuv's pool takes them in no order that the binding fixes, so the
    event names the worker by its place in the queue.  The loop thread
    completes one of the workers whose [Execute] has finished, in the order
    in which they happen to finish.  [Serves] is the two in one for the
    oldest queued worker.

    A call of an engine method is one step here; what two threads do
    inside the engine at the same moment is outside this embedding. *)
Inductive Event : Type :=
| Calls (m : Method) (info : list Value)
| Serves
| Executes (k : nat)
| Completes (k : nat).

(** A list without its element at [k]. *)
Definition remove_at {A : Type} (k : nat) (l : list A) : list A :=
  firstn k l ++ skipn (S k) l.

Section Lifetime.
Context {E : Type} (v8 : V8) (eng : Impl.t E).

Definition Init (m : Method) : NAN_METHOD E :=
  match m with
  | js_setDictionary => SetDictionary v8 eng
  | js_getAvailableDictionaries => GetAvailableDictionaries v8 eng
  | js_getCorrectionsForMisspellingAsync => GetCorrectionsForMisspellingAsync v8
  | js_isMisspelled => IsMisspelled v8 eng
  | js_checkSpellingAsync => CheckSpellingAsync
  | js_add => Add v8 eng
  | js_remove => Remove v8 eng
  end.

(** The loop thread completes a worker: [WorkComplete] ends in
    [callback->Call].  The callback is [info[1]] as it was cast, without a
    check, when the worker was built; calling what is not a function ends
    the process ([None]). *)
Definition complete (w : AsyncWorker) (h : Host E) : option (Host E) :=
  let invocation := WorkComplete v8 w in
  if IsFunction (callee invocation)
  then Some {| that := that h;
               work_queue := work_queue h;
               finished := finished h;
               called := called h ++ [invocation] |}
  else None.

(** One worker from queue to completion.  [Execute] runs on a pool
    thread; nothing around it catches what leaves it, so a fault ends the
    process ([None]).  Otherwise [WorkComplete] runs on the loop thread. *)
Definition run_worker (w : AsyncWorker) (h : Host E) : option (Host E) :=
  match Execute eng w (impl (that h)) with
  | Faults => None
  | Returns (w', impl') =>
      complete w' {| that := with_impl impl' (that h);
                     work_queue := work_queue h;
                     finished := finished h;
                     called := called h |}
  end.

Definition serve_next (h : Host E) : option (Host E) :=
  match work_queue h with
  | [] => Some h
  | w :: rest =>
      run_worker w {| that := that h; work_queue := rest; finished := finished h;
                      called := called h |}
  end.

(** A pool thread runs [Execute] of the worker at place [k] of the queue;
    the worker, holding the engine's answer, then waits for the loop. *)
Definition execute_at (k : nat) (h : Host E) : option (Host E) :=
  match nth_error (work_queue h) k with
  | None => Some h
  | Some w =>
      match Execute eng w (impl (that h)) with
      | Faults => None
      | Returns (w', impl') =>
          Some {| that := with_impl impl' (that h);
                  work_queue := remove_at k (work_queue h);
                  finished := finished h ++ [w'];
                  called := called h |}
      end
  end.

(** The loop thread completes the worker at place [k] of those that wait. *)
Definition complete_at (k : nat) (h : Host E) : option (Host E) :=
  match nth_error (finished h) k with
  | None => Some h
  | Some w =>
      complete w {| that := that h;
                    work_queue := work_queue h;
                    finished := remove_at k (finished h);
                    called := called h |}
  end.

Definition step (ev : Event) (h : Host E) : option (Host E) :=
  match ev with
  | Calls m info => Some (snd (Init m info h))
  | Serves => serve_next h
  | Executes k => execute_at k h
  | Completes k => complete_at k h
  end.

Fixpoint run (evs : list Event) (h : Host E) : option (Host E) :=
  match evs with
  | [] => Some h
  | ev :: rest =>
      match step ev h with
      | Some h' => run rest h'
      | None => None
      end
  end.

(** One way for the work to get done: the loop completes the workers that
    wait, oldest first, and the queued workers are then served one after
    the other. *)
Definition drain (h : Host E) : option (Host E) :=
  run (repeat (Completes 0) (length (finished h)) ++
       repeat Serves (length (work_queue h))) h.
End Lifetime.

(** ** Reading the claims of the contract *)





(** The buffers the controller keeps alive. *)
Definition pinned {E} (c : Spellchecker E) : list Value :=
  match dictData c with
  | Some b => [b]
  | None => []
  end.

(** An event that puts another buffer into [dictData]. *)
Definition repins (ev : Event) : bool :=
  match ev with
  | Calls js_setDictionary info => (1 <? length info) && Buffer_HasInstance (arg info 1)
  | _ => false
  end.

Definition is_call (ev : Event) : bool :=
  match ev with Calls _ _ => true | _ => false end.

(** The objects the loop thread builds for a range and for a string. *)
Definition range_object (r : MisspelledRange) : Value :=
  VObject [("start", VInteger (start r)); ("end", VInteger (end_ r))].

(** The same with the offsets as [HandleOKCallback] narrows them. *)
Definition range_object32 (r : MisspelledRange) : Value :=
  range_object {| start := to_uint32 (start r); end_ := to_uint32 (end_ r) |}.

Definition fits_uint32 (r : MisspelledRange) : Prop :=
  (0 <= start r < 2 ^ 32)%Z /\ (0 <= end_ r < 2 ^ 32)%Z.

Definition js_string (v8 : V8) (s : std_string) : Value := VString (NewFromUtf8 v8 s).

(** An engine whose two asynchronous methods always return. *)
Definition never_faults {E} (eng : Impl.t E) : Prop :=
  (forall text e, Impl.CheckSpelling eng text e <> Faults) /\
  (forall word e, Impl.GetCorrectionsForMisspelling eng word e <> Faults).

(** The engine call that [Execute] makes for a worker faults. *)
Definition engine_faults_on {E} (eng : Impl.t E) (w : AsyncWorker) (e : E) : Prop :=
  match w with
  | check_spelling w =>
      Impl.CheckSpelling eng (CheckSpellingWorker.text w) e = Faults
  | get_corrections w =>
      Impl.GetCorrectionsForMisspelling eng (GetCorrectionsForMisspellingWorker.word w) e
      = Faults
  end.

(** A completion of the successful form: the worker's callback, a null
    error and one payload. *)
Definition success_for (w : AsyncWorker) (c : Invocation) : Prop :=
  callee c = worker_callback w /\ exists payload, argv c = [VNull; payload].

(** A completion of the failing form: the worker's callback and an error,
    without payload. *)
Definition error_for (w : AsyncWorker) (c : Invocation) : Prop :=
  callee c = worker_callback w /\ exists message, argv c = [VError message].

(** A range that lies in a text. *)
Definition in_text (text : list uint16_t) (r : MisspelledRange) : Prop :=
  (0 <= start r <= end_ r)%Z /\ (end_ r <= Z.of_nat (length text))%Z.

(** ** A small host to run the binding in

    For strings of ASCII code units V8's conversions are the identity on
    the character codes, and the [std::string] made from the converted
    characters ends before the first zero among them.  [ascii_v8] is exact
    on such strings, on [undefined], [null] and the booleans, and on the
    integers of absolute value below 10^21; it is used on nothing else. *)
Fixpoint until_zero (units : list uint16_t) : list uint16_t :=
  match units with
  | [] => []
  | u :: rest => if (u =? 0)%Z then [] else u :: until_zero rest
  end.

Definition ascii_Utf8Value (v : Value) : std_string :=
  match v with
  | VString units =>
      string_of_list_ascii
        (map (fun u => Ascii.ascii_of_nat (Z.to_nat u)) (until_zero units))
  | VUndefined => "undefined"
  | VNull => "null"
  | VBoolean true => "true"
  | VBoolean false => "false"
  | VInteger n =>
      if (Z.abs n <? 10 ^ 21)%Z
      then DecimalString.NilZero.string_of_int (Z.to_int n)
      else EmptyString
  | _ => EmptyString
  end.

Definition ascii_NewFromUtf8 (s : std_string) : list uint16_t :=
  map (fun c => Z.of_nat (Ascii.nat_of_ascii c)) (list_ascii_of_string s).

Definition ascii_v8 : V8 :=
  {| Utf8Value := ascii_Utf8Value; NewFromUtf8 := ascii_NewFromUtf8 |}.

(** An engine over a list of known words.  It flags the whole text short
    of its last code unit, suggests the known words, and lists one
    dictionary under the path it is given.  With [sound := false] its two
    asynchronous methods fault. *)
Definition wordlist_engine (sound : bool) : Impl.t (list std_string) :=
  {| Impl.SetDictionary := fun language known => (String.eqb language "en_US", known);
     Impl.SetDictionaryToContents := fun data known => (negb (length data =? 0), known);
     Impl.IsMisspelled := fun word known => (negb (existsb (String.eqb word) known), known);
     Impl.CheckSpelling := fun text known =>
       if sound
       then Returns ([{| start := 0; end_ := Z.of_nat (length text) - 1 |}], known)
       else Faults;
     Impl.GetCorrectionsForMisspelling := fun word known =>
       if sound then Returns (known, known) else Faults;
     Impl.Add := fun word known => word :: known;
     Impl.Remove := fun word known => filter (fun w => negb (String.eqb w word)) known;
     Impl.GetAvailableDictionaries := fun path known => ([String.append path "/en_US"], known)
  |}.

(** The same engine, but one that reports the ranges [found] for every
    text. *)
Definition reporting_engine (found : list MisspelledRange) : Impl.t (list std_string) :=
  {| Impl.SetDictionary := Impl.SetDictionary (wordlist_engine true);
     Impl.SetDictionaryToContents := Impl.SetDictionaryToContents (wordlist_engine true);
     Impl.IsMisspelled := Impl.IsMisspelled (wordlist_engine true);
     Impl.CheckSpelling := fun text known => Returns (found, known);
     Impl.GetCorrectionsForMisspelling :=
       Impl.GetCorrectionsForMisspelling (wordlist_engine true);
     Impl.Add := Impl.Add (wordlist_engine true);
     Impl.Remove := Impl.Remove (wordlist_engine true);
     Impl.GetAvailableDictionaries := Impl.GetAvailableDictionaries (wordlist_engine true)
  |}.

(** ** Reading a run off its events *)

Definition option_list {A : Type} (o : option A) : list A :=
  match o with Some a => [a] | None => [] end.


(** The worker a call queues, if it queues one. *)
Definition queued_by (v8 : V8) (ev : Event) : option AsyncWorker :=
  match ev with
  | Calls js_checkSpellingAsync info =>
      if length info <? 1 then None
      else if negb (IsString (arg info 0)) then None
      else if String_Length (arg info 0) =? 0 then None
      else Some (check_spelling
                   (CheckSpellingWorker.new (arg info 1) (units_of (arg info 0) ++ [0%Z])))
  | Calls js_getCorrectionsForMisspellingAsync info =>
      if length info <? 1 then None
      else Some (get_corrections
                   (GetCorrectionsForMisspellingWorker.new (arg info 1)
                      (Utf8Value v8 (arg info 0))))
  | _ => None
  end.

(** What a call asks the engine on the calling thread, if anything. *)
Definition question (v8 : V8) (ev : Event) : option EngineCall :=
  match ev with
  | Calls js_setDictionary info =>
      if length info <? 1 then None
      else if 1 <? length info then
        if negb (Buffer_HasInstance (arg info 1)) then None
        else Some (asked_SetDictionaryToContents (Buffer_Data (arg info 1)))
      else Some (asked_SetDictionary (Utf8Value v8 (arg info 0)))
  | Calls js_isMisspelled info =>
      if length info <? 1 then None
      else Some (asked_IsMisspelled (Utf8Value v8 (arg info 0)))
  | Calls js_add info =>
      if length info <? 1 then None else Some (asked_Add (Utf8Value v8 (arg info 0)))
  | Calls js_remove info =>
      if length info <? 1 then None else Some (asked_Remove (Utf8Value v8 (arg info 0)))
  | Calls js_getAvailableDictionaries info => Some (asked_GetAvailableDictionaries ".")
  | _ => None
  end.

(** What a worker asks the engine from the pool thread. *)
Definition worker_question (w : AsyncWorker) : EngineCall :=
  match w with
  | check_spelling w => asked_CheckSpelling (CheckSpellingWorker.text w)
  | get_corrections w =>
      asked_GetCorrectionsForMisspelling (GetCorrectionsForMisspellingWorker.word w)
  end.

Definition from_pool (c : EngineCall) : bool :=
  match c with
  | asked_CheckSpelling _ | asked_GetCorrectionsForMisspelling _ => true
  | _ => false
  end.

(** The buffer a call puts into [dictData], if it puts one. *)
Definition pinned_by (ev : Event) : option Value :=
  match ev with
  | Calls js_setDictionary info =>
      if length info <? 1 then None
      else if 1 <? length info then
        if negb (Buffer_HasInstance (arg info 1)) then None else Some (arg info 1)
      else None
  | _ => None
  end.

(** What [dictData] holds after the events, having held [held] before. *)
Definition last_pinned (evs : list Event) (held : option Value) : option Value :=
  fold_left (fun held ev => match pinned_by ev with Some b => Some b | None => held end)
    evs held.

(** The workers that the calls of a run queue, in call order. *)
Definition requested (v8 : V8) (evs : list Event) : list AsyncWorker :=
  flat_map (fun ev => option_list (queued_by v8 ev)) evs.

(** The callbacks of the tasks a host has taken on and not lost: those
    invoked, those of the workers that wait for the loop, and those of the
    workers still queued. *)
Definition callbacks_of {E} (h : Host E) : list Value :=
  map callee (called h) ++ map worker_callback (finished h ++ work_queue h).

(** The questions of the pool: those the engine has been asked, and those
    of the workers still queued. *)
Definition pool_questions_of {E} (h : Host E) : list EngineCall :=
  filter from_pool (received (impl (that h))) ++ map worker_question (work_queue h).

(** A worker whose callback can be called. *)
Definition callable (w : AsyncWorker) : Prop :=
  IsFunction (worker_callback w) = true.

(** An event in which the loop thread completes a worker. *)
Definition completes (ev : Event) : bool :=
  match ev with
  | Serves | Completes _ => true
  | _ => false
  end.

(** A completion with a null error and an array. *)
Definition null_and_array (c : Invocation) : Prop :=
  exists elems, argv c = [VNull; VArray elems].

(** A vector as [CheckSpellingAsync] builds it: code units, at least one,
    and a terminating zero. *)
Definition terminated_text (text : list uint16_t) : Prop :=
  exists units, units <> [] /\ text = units ++ [0%Z].

Definition well_asked (c : EngineCall) : Prop :=
  match c with
  | asked_CheckSpelling text => terminated_text text
  | _ => True
  end.

(** The bytes the engine was last given as the contents of a dictionary. *)
Definition last_contents (asked : list EngineCall) : option (list uchar) :=
  fold_left (fun held c =>
               match c with
               | asked_SetDictionaryToContents data => Some data
               | _ => held
               end) asked None.

(** * Properties *)

(** ** Arrays filled by the loops *)

Lemma Array_Set_at_end (v : Value) (a : list Value) :
  Array_Set (length a) v a = a ++ [v].
Proof.
  unfold Array_Set. rewrite Nat.ltb_irrefl, Nat.sub_diag. reflexivity.
Qed.

Lemma Array_Set_inside (v : Value) (done : list Value) (x : Value) (todo : list Value) :
  Array_Set (length done) v (done ++ x :: todo) = done ++ v :: todo.
Proof.
  unfold Array_Set.
  assert (H : (length done <? length (done ++ x :: todo)) = true).
  { apply Nat.ltb_lt. rewrite length_app. simpl. lia. }
  rewrite H. clear H.
  induction done as [|d done IH]; simpl in *; [reflexivity|].
  f_equal. exact IH.
Qed.

Lemma to_uint32_fits (z : Z) : (0 <= z < 2 ^ 32)%Z -> to_uint32 z = z.
Proof. intro H. unfold to_uint32. apply Z.mod_small. exact H. Qed.

Lemma CheckSpellingWorker_fill_appends (iter : list MisspelledRange) :
  forall acc : list Value,
    CheckSpellingWorker.fill (length acc) iter acc = acc ++ map range_object32 iter.
Proof.
  induction iter as [|r rest IH]; intro acc; simpl.
  - now rewrite app_nil_r.
  - rewrite Array_Set_at_end.
    replace (S (length acc)) with (length (acc ++ [range_object32 r]))
      by (rewrite length_app; simpl; lia).
    unfold range_object32, range_object in *. simpl in *.
    rewrite IH, <- app_assoc. reflexivity.
Qed.

Lemma in_text_fits_uint32 (text : list uint16_t) (r : MisspelledRange) :
  (Z.of_nat (length text) < 2 ^ 32)%Z -> in_text text r -> fits_uint32 r.
Proof. unfold in_text, fits_uint32. lia. Qed.

Lemma range_object32_fits (rs : list MisspelledRange) :
  Forall fits_uint32 rs -> map range_object32 rs = map range_object rs.
Proof.
  induction 1 as [|r rest [Hs He] _ IH]; simpl; [reflexivity|].
  rewrite IH. unfold range_object32. rewrite !to_uint32_fits by assumption.
  destruct r; reflexivity.
Qed.

Lemma firstn_S_nth {A : Type} (d : A) (l : list A) :
  forall i, i < length l -> firstn (S i) l = firstn i l ++ [nth i l d].
Proof.
  induction l as [|x l IH]; intros i Hi; simpl in Hi; [lia|].
  destruct i as [|i]; [reflexivity|].
  change (x :: firstn (S i) l = x :: (firstn i l ++ [nth i l d])).
  rewrite IH by lia. reflexivity.
Qed.

(** One round of a string loop: slot [i] of a half-filled array. *)
Lemma string_round (v8 : V8) (strings : list std_string) (todo i : nat) :
  i + S todo = length strings ->
  Array_Set i (js_string v8 (nth i strings EmptyString))
    (map (js_string v8) (firstn i strings) ++ repeat VUndefined (S todo))
  = map (js_string v8) (firstn (S i) strings) ++ repeat VUndefined todo.
Proof.
  intro H.
  assert (Hlen : length (map (js_string v8) (firstn i strings)) = i).
  { rewrite length_map, length_firstn. lia. }
  rewrite <- Hlen at 1. simpl repeat. rewrite Array_Set_inside.
  rewrite (firstn_S_nth EmptyString) by lia.
  rewrite map_app, <- app_assoc. reflexivity.
Qed.

Lemma corrections_fill_maps (v8 : V8) (corrections : list std_string) :
  forall todo i,
    i + todo = length corrections ->
    GetCorrectionsForMisspellingWorker.fill v8 todo i corrections
      (map (js_string v8) (firstn i corrections) ++ repeat VUndefined todo)
    = map (js_string v8) corrections.
Proof.
  induction todo as [|todo IH]; intros i H.
  - simpl. rewrite firstn_all2, app_nil_r by lia. reflexivity.
  - cbn [GetCorrectionsForMisspellingWorker.fill].
    change (VString (NewFromUtf8 v8 ?s)) with (js_string v8 s).
    rewrite string_round by exact H. apply IH. lia.
Qed.

Lemma dictionaries_fill_maps (v8 : V8) (dictionaries : list std_string) :
  forall todo i,
    i + todo = length dictionaries ->
    fill_dictionaries v8 todo i dictionaries
      (map (js_string v8) (firstn i dictionaries) ++ repeat VUndefined todo)
    = map (js_string v8) dictionaries.
Proof.
  induction todo as [|todo IH]; intros i H.
  - simpl. rewrite firstn_all2, app_nil_r by lia. reflexivity.
  - cbn [fill_dictionaries].
    change (VString (NewFromUtf8 v8 ?s)) with (js_string v8 s).
    rewrite string_round by exact H. apply IH. lia.
Qed.

(** ** What the completion callbacks are given *)

Lemma CheckSpellingWorker_HandleOKCallback_argv (w : CheckSpellingWorker.t) :
  CheckSpellingWorker.HandleOKCallback w =
  {| callee := CheckSpellingWorker.callback w;
     argv := [VNull; VArray (map range_object32 (CheckSpellingWorker.misspelled_ranges w))] |}.
Proof.
  unfold CheckSpellingWorker.HandleOKCallback.
  change 0 with (length (Array_New 0)) at 1.
  rewrite CheckSpellingWorker_fill_appends. reflexivity.
Qed.

Lemma GetCorrectionsForMisspellingWorker_HandleOKCallback_argv
    (v8 : V8) (w : GetCorrectionsForMisspellingWorker.t) :
  GetCorrectionsForMisspellingWorker.HandleOKCallback v8 w =
  {| callee := GetCorrectionsForMisspellingWorker.callback w;
     argv := [VNull;
              VArray (map (js_string v8) (GetCorrectionsForMisspellingWorker.corrections w))] |}.
Proof.
  unfold GetCorrectionsForMisspellingWorker.HandleOKCallback, Array_New.
  pose proof (corrections_fill_maps v8 (GetCorrectionsForMisspellingWorker.corrections w)
                _ 0 eq_refl) as H.
  cbn [firstn map app] in H. rewrite H. reflexivity.
Qed.

Lemma complete_at_appends {E : Type} (v8 : V8) (eng : Impl.t E)
    (h : Host E) (j : nat) (w : AsyncWorker) :
  nth_error (finished h) j = Some w ->
  IsFunction (callee (WorkComplete v8 w)) = true ->
  step v8 eng (Completes j) h =
  Some {| that := that h;
          work_queue := work_queue h;
          finished := remove_at j (finished h);
          called := called h ++ [WorkComplete v8 w] |}.
Proof.
  intros Hj Hf. cbn [step]. unfold complete_at, complete. rewrite Hj.
  cbn [that work_queue finished called]. rewrite Hf. reflexivity.
Qed.

(** C7. When a task completes, its callback is given the sequence the
    engine produced, element for element and in the engine's order,
    whatever else happens between the worker's [Execute] and its
    completion: for checkSpellingAsync an array holding, for each range in
    turn, an object with that range's start and end reduced modulo 2^32
    (so the engine's own values whenever these are below 2^32); for
    getCorrectionsForMisspellingAsync an array holding, for each
    correction in turn, the string made from it. *)
Theorem payload_is_engine_sequence {E : Type} (v8 : V8) (eng : Impl.t E) (g : Engine E)
    (callback : Value) (text : list uint16_t) (word : std_string)
    (ranges : list MisspelledRange) (corrections : list std_string) (e1 e2 : E) :
  Impl.CheckSpelling eng text (state g) = Returns (ranges, e1) ->
  Impl.GetCorrectionsForMisspelling eng word (state g) = Returns (corrections, e2) ->
  IsFunction callback = true ->
  (exists w1 g1,
      Execute eng (check_spelling (CheckSpellingWorker.new callback text)) g
      = Returns (w1, g1) /\
      forall (h : Host E) (j : nat),
        nth_error (finished h) j = Some w1 ->
        exists h',
          step v8 eng (Completes j) h = Some h' /\
          called h' = called h ++
            [{| callee := callback;
                argv := [VNull; VArray (map range_object32 ranges)] |}]) /\
  (Forall fits_uint32 ranges -> map range_object32 ranges = map range_object ranges) /\
  (exists w2 g2,
      Execute eng (get_corrections (GetCorrectionsForMisspellingWorker.new callback word)) g
      = Returns (w2, g2) /\
      forall (h : Host E) (j : nat),
        nth_error (finished h) j = Some w2 ->
        exists h',
          step v8 eng (Completes j) h = Some h' /\
          called h' = called h ++
            [{| callee := callback;
                argv := [VNull; VArray (map (js_string v8) corrections)] |}]).
Proof.
  intros Hcheck Hcorr Hfun. split; [|split].
  - unfold Execute, CheckSpellingWorker.Execute, impl_CheckSpelling.
    unfold CheckSpellingWorker.new.
    cbn [CheckSpellingWorker.text CheckSpellingWorker.callback CheckSpellingWorker.errmsg].
    rewrite firstn_all, Hcheck. eexists. eexists. split; [reflexivity|].
    intros h j Hj.
    assert (Hw : WorkComplete v8
                   (check_spelling
                      {| CheckSpellingWorker.callback := callback;
                         CheckSpellingWorker.errmsg := None;
                         CheckSpellingWorker.text := text;
                         CheckSpellingWorker.misspelled_ranges := ranges |}) =
                 {| callee := callback;
                    argv := [VNull; VArray (map range_object32 ranges)] |}).
    { unfold WorkComplete. cbn [worker_errmsg CheckSpellingWorker.errmsg HandleOKCallback].
      now rewrite CheckSpellingWorker_HandleOKCallback_argv. }
    eexists. split.
    + apply complete_at_appends; [exact Hj|]. rewrite Hw. exact Hfun.
    + cbn [called]. now rewrite Hw.
  - apply range_object32_fits.
  - unfold Execute, GetCorrectionsForMisspellingWorker.Execute,
      impl_GetCorrectionsForMisspelling.
    unfold GetCorrectionsForMisspellingWorker.new.
    cbn [GetCorrectionsForMisspellingWorker.word GetCorrectionsForMisspellingWorker.callback
         GetCorrectionsForMisspellingWorker.errmsg].
    rewrite Hcorr. eexists. eexists. split; [reflexivity|].
    intros h j Hj.
    assert (Hw : WorkComplete v8
                   (get_corrections
                      {| GetCorrectionsForMisspellingWorker.callback := callback;
                         GetCorrectionsForMisspellingWorker.errmsg := None;
                         GetCorrectionsForMisspellingWorker.word := word;
                         GetCorrectionsForMisspellingWorker.corrections := corrections |}) =
                 {| callee := callback;
                    argv := [VNull; VArray (map (js_string v8) corrections)] |}).
    { unfold WorkComplete.
      cbn [worker_errmsg GetCorrectionsForMisspellingWorker.errmsg HandleOKCallback].
      now rewrite GetCorrectionsForMisspellingWorker_HandleOKCallback_argv. }
    eexists. split.
    + apply complete_at_appends; [exact Hj|]. rewrite Hw. exact Hfun.
    + cbn [called]. now rewrite Hw.
Qed.

Lemma payload_is_engine_sequence_witness :
  (exists w1 g1,
      Execute (wordlist_engine true)
        (check_spelling (CheckSpellingWorker.new (VFunction 7) [72; 101; 108; 111; 0]%Z))
        {| state := ["the"; "tech"]; received := [] |} = Returns (w1, g1)) /\
  (exists w2 g2,
      Execute (wordlist_engine true)
        (get_corrections (GetCorrectionsForMisspellingWorker.new (VFunction 7) "tehc"))
        {| state := ["the"; "tech"]; received := [] |} = Returns (w2, g2)).
Proof.
  destruct (payload_is_engine_sequence ascii_v8 (wordlist_engine true)
              {| state := ["the"; "tech"]; received := [] |}
              (VFunction 7) [72; 101; 108; 111; 0]%Z "tehc"
              [{| start := 0; end_ := 4 |}] ["the"; "tech"] ["the"; "tech"] ["the"; "tech"])
    as [[w1 [g1 [H1 _]]] [_ [w2 [g2 [H2 _]]]]].
  - reflexivity.
  - reflexivity.
  - reflexivity.
  - split; [now exists w1, g1 | now exists w2, g2].
Defined.

Example payload_of_a_served_check :
  run ascii_v8 (wordlist_engine true)
    [Calls js_checkSpellingAsync [VString [72; 101; 108; 111]%Z; VFunction 7]; Serves]
    (New ["the"]) =
  Some {| that := {| impl := {| state := ["the"];
                                received := [asked_CheckSpelling [72; 101; 108; 111; 0]%Z] |};
                     dictData := None |};
          work_queue := [];
          finished := [];
          called := [{| callee := VFunction 7;
                        argv := [VNull;
                                 VArray [VObject [("start", VInteger 0);
                                                  ("end", VInteger 4)]]] |}] |}.
Proof. reflexivity. Qed.

(** Against C7 as it stands: an engine reports a range that ends at
    2^32 + 5; the callback is given 5 for its end, not the value the
    engine produced. *)
Lemma engine_offsets_are_narrowed :
  run ascii_v8 (reporting_engine [{| start := 3; end_ := 2 ^ 32 + 5 |}])
    [Calls js_checkSpellingAsync [VString [97]%Z; VFunction 0]; Executes 0; Completes 0]
    (New []) =
  Some {| that := {| impl := {| state := [];
                                received := [asked_CheckSpelling [97; 0]%Z] |};
                     dictData := None |};
          work_queue := [];
          finished := [];
          called := [{| callee := VFunction 0;
                        argv := [VNull;
                                 VArray [VObject [("start", VInteger 3);
                                                  ("end", VInteger 5)]]] |}] |} /\
  [VObject [("start", VInteger 3); ("end", VInteger 5)]] <>
  map range_object [{| start := 3; end_ := 2 ^ 32 + 5 |}].
Proof. split; [reflexivity | discriminate]. Qed.

(** ** The entry points *)

(** C1. Given an empty text, [CheckSpellingAsync] returns [undefined] and
    leaves the host as it found it: no worker is queued, and the callback
    is not invoked (on this path the method does not read [info[1]]), so
    the caller's completion never comes. *)
Theorem CheckSpellingAsync_empty_text_is_silent {E : Type} (h : Host E) (rest : list Value) :
  CheckSpellingAsync (VString [] :: rest) h = (Returned VUndefined, h) /\
  called (snd (CheckSpellingAsync (VString [] :: rest) h)) = called h /\
  work_queue (snd (CheckSpellingAsync (VString [] :: rest) h)) = work_queue h.
Proof.
  assert (H : CheckSpellingAsync (VString [] :: rest) h = (Returned VUndefined, h)).
  { unfold CheckSpellingAsync. cbn [length Nat.ltb Nat.leb arg nth IsString negb].
    reflexivity. }
  rewrite H. repeat split.
Qed.

Example CheckSpellingAsync_empty_text_with_callback :
  drain ascii_v8 (wordlist_engine true)
    (snd (CheckSpellingAsync [VString []; VFunction 0] (New ["the"]))) =
  Some (New ["the"]).
Proof. reflexivity. Qed.

(** C2. Whatever arguments it is called with, [GetAvailableDictionaries]
    asks the engine for the dictionaries under ["."] and returns what the
    engine lists there: a path given by the caller is converted and
    dropped. *)
Theorem GetAvailableDictionaries_asks_for_dot {E : Type} (v8 : V8) (eng : Impl.t E)
    (info : list Value) (h : Host E) :
  received (impl (that (snd (GetAvailableDictionaries v8 eng info h)))) =
  received (impl (that h)) ++ [asked_GetAvailableDictionaries "."] /\
  fst (GetAvailableDictionaries v8 eng info h) =
  Returned (VArray (map (js_string v8)
                      (fst (Impl.GetAvailableDictionaries eng "." (state (impl (that h))))))).
Proof.
  unfold GetAvailableDictionaries, impl_GetAvailableDictionaries.
  destruct (Impl.GetAvailableDictionaries eng "." (state (impl (that h)))) as [r e].
  split; [reflexivity|]. cbn [fst]. unfold Array_New.
  pose proof (dictionaries_fill_maps v8 r _ 0 eq_refl) as H.
  cbn [firstn map app] in H. rewrite H. reflexivity.
Qed.

Example GetAvailableDictionaries_explicit_path :
  GetAvailableDictionaries ascii_v8 (wordlist_engine true)
    [VString [47; 111; 112; 116]%Z] (New []) =
  (Returned (VArray [VString [46; 47; 101; 110; 95; 85; 83]%Z]),
   {| that := {| impl := {| state := [];
                            received := [asked_GetAvailableDictionaries "."] |};
                 dictData := None |};
      work_queue := [];
      finished := [];
      called := [] |}).
Proof. reflexivity. Qed.

(** C9. For every word, the empty one included, and whatever follows it in
    the arguments, [GetCorrectionsForMisspellingAsync] returns with one
    more worker in the queue, the one for that word: there is no path that
    returns without queueing. *)
Theorem GetCorrectionsForMisspellingAsync_always_schedules {E : Type} (v8 : V8)
    (h : Host E) (word : list uint16_t) (rest : list Value) :
  fst (GetCorrectionsForMisspellingAsync v8 (VString word :: rest) h) = Returned VUndefined /\
  work_queue (snd (GetCorrectionsForMisspellingAsync v8 (VString word :: rest) h)) =
    work_queue h ++
    [get_corrections
       (GetCorrectionsForMisspellingWorker.new (arg rest 0) (Utf8Value v8 (VString word)))] /\
  length (work_queue (snd (GetCorrectionsForMisspellingAsync v8 (VString word :: rest) h))) =
    S (length (work_queue h)) /\
  called (snd (GetCorrectionsForMisspellingAsync v8 (VString word :: rest) h)) = called h.
Proof.
  unfold GetCorrectionsForMisspellingAsync.
  cbn [length Nat.ltb Nat.leb arg nth fst snd work_queue called AsyncQueueWorker].
  repeat split.
  rewrite length_app. simpl. lia.
Qed.

Example GetCorrectionsForMisspellingAsync_empty_word :
  drain ascii_v8 (wordlist_engine true)
    (snd (GetCorrectionsForMisspellingAsync ascii_v8 [VString []; VFunction 0] (New ["the"]))) =
  Some {| that := {| impl := {| state := ["the"];
                                received := [asked_GetCorrectionsForMisspelling ""] |};
                     dictData := None |};
          work_queue := [];
          finished := [];
          called := [{| callee := VFunction 0;
                        argv := [VNull; VArray [VString [116; 104; 101]%Z]] |}] |}.
Proof. reflexivity. Qed.

(** ** Method calls, case by case *)

Ltac method_cases :=
  repeat match goal with
    | |- context [if ?b then _ else _] => destruct b eqn:?
    | |- context [match ?x with pair _ _ => _ end] => destruct x eqn:?
    end.

Ltac unfold_methods :=
  unfold Init, SetDictionary, GetAvailableDictionaries,
    GetCorrectionsForMisspellingAsync, IsMisspelled, CheckSpellingAsync, Add, Remove,
    impl_SetDictionary, impl_SetDictionaryToContents, impl_IsMisspelled,
    impl_GetAvailableDictionaries, impl_Add, impl_Remove.

Section Method_facts.
Context {E : Type} (v8 : V8) (eng : Impl.t E).



(** A call never touches the workers already queued and the invocations
    already made, and queues at most one worker. *)
Lemma call_extends_queue (m : Method) (info : list Value) (h : Host E) :
  exists more,
    work_queue (snd (Init v8 eng m info h)) = work_queue h ++ more /\
    Forall (fun w => worker_errmsg w = None) more /\
    called (snd (Init v8 eng m info h)) = called h.
Proof.
  destruct m; unfold_methods; method_cases; cbn;
    first [ exists []; rewrite app_nil_r; now repeat split
          | eexists; split; [reflexivity|]; split; [|reflexivity];
            repeat constructor ].
Qed.

Lemma String_Write_vector (v : Value) :
  String_Write v (repeat 0%Z (String_Length v + 1)) = units_of v ++ [0%Z].
Proof.
  unfold String_Write, String_Length.
  rewrite skipn_all2, app_nil_r; [reflexivity|].
  rewrite repeat_length, length_app. simpl. lia.
Qed.

(** All that a call does to the host. *)
Lemma call_effect (m : Method) (info : list Value) (h : Host E) :
  work_queue (snd (Init v8 eng m info h)) =
    work_queue h ++ option_list (queued_by v8 (Calls m info)) /\
  called (snd (Init v8 eng m info h)) = called h /\
  received (impl (that (snd (Init v8 eng m info h)))) =
    received (impl (that h)) ++ option_list (question v8 (Calls m info)) /\
  dictData (that (snd (Init v8 eng m info h))) =
    match pinned_by (Calls m info) with
    | Some b => Some b
    | None => dictData (that h)
    end.
Proof.
  destruct m; unfold queued_by, question, pinned_by; unfold_methods;
    rewrite ?String_Write_vector; method_cases; cbn;
    rewrite ?app_nil_r; repeat split.
  all: match goal with
       | H : (let '(_, _) := ?x in _) = _ |- _ =>
           destruct x; injection H as <- <-; reflexivity
       end.
Qed.

(** A call leaves the workers that wait for the loop alone. *)
Lemma call_keeps_finished (m : Method) (info : list Value) (h : Host E) :
  finished (snd (Init v8 eng m info h)) = finished h.
Proof. destruct m; unfold_methods; method_cases; reflexivity. Qed.

(** Only [SetDictionary] with a Buffer in second place writes [dictData]. *)
Lemma call_keeps_dictData (m : Method) (info : list Value) (h : Host E) :
  repins (Calls m info) = false ->
  dictData (that (snd (Init v8 eng m info h))) = dictData (that h).
Proof.
  destruct m; unfold repins; intro H; unfold_methods; method_cases; cbn;
    try reflexivity.
  all: simpl in *; try discriminate; try congruence.
  rewrite H in Heqb1. discriminate.
Qed.

Lemma SetDictionary_pins (info : list Value) (h : Host E) :
  1 < length info ->
  Buffer_HasInstance (arg info 1) = true ->
  dictData (that (snd (SetDictionary v8 eng info h))) = Some (arg info 1).
Proof.
  intros Hlen Hbuf. unfold SetDictionary.
  assert (H0 : (length info <? 1) = false) by (apply Nat.ltb_ge; lia).
  assert (H1 : (1 <? length info) = true) by (apply Nat.ltb_lt; lia).
  rewrite H0, H1, Hbuf. cbn [negb].
  unfold impl_SetDictionaryToContents. method_cases. reflexivity.
Qed.

(** What [dictData] holds is a Buffer. *)
Lemma call_pins_buffers_only (m : Method) (info : list Value) (h : Host E) :
  Forall (fun b => Buffer_HasInstance b = true) (pinned (that h)) ->
  Forall (fun b => Buffer_HasInstance b = true) (pinned (that (snd (Init v8 eng m info h)))).
Proof.
  intro H. destruct (repins (Calls m info)) eqn:Hr.
  - destruct m; try discriminate. simpl in Hr.
    apply andb_prop in Hr as [H1 H2]. apply Nat.ltb_lt in H1.
    unfold pinned. cbn [Init]. rewrite SetDictionary_pins by assumption.
    constructor; [exact H2 | constructor].
  - unfold pinned in *. rewrite call_keeps_dictData by exact Hr. exact H.
Qed.
End Method_facts.



Example non_string_word_is_converted :
  question ascii_v8 (Calls js_isMisspelled [VInteger 42]) = Some (asked_IsMisspelled "42") /\
  question ascii_v8 (Calls js_add [VBoolean true]) = Some (asked_Add "true") /\
  queued_by ascii_v8 (Calls js_getCorrectionsForMisspellingAsync [VNull]) =
    Some (get_corrections (GetCorrectionsForMisspellingWorker.new VUndefined "null")).
Proof. repeat split. Qed.


(** ** The text handed to the engine *)

Lemma String_Write_fresh_vector (units : list uint16_t) :
  String_Write (VString units) (repeat 0%Z (String_Length (VString units) + 1))
  = units ++ [0%Z].
Proof.
  unfold String_Write, String_Length. cbn [units_of].
  rewrite skipn_all2, app_nil_r; [reflexivity|].
  rewrite repeat_length, length_app. simpl. lia.
Qed.

Lemma CheckSpellingAsync_queues {E : Type} (h : Host E)
    (units : list uint16_t) (rest : list Value) :
  units <> [] ->
  CheckSpellingAsync (VString units :: rest) h =
  (Returned VUndefined,
   AsyncQueueWorker
     (check_spelling (CheckSpellingWorker.new (arg rest 0) (units ++ [0%Z]))) h).
Proof.
  intro Hne. unfold CheckSpellingAsync.
  cbn [length Nat.ltb Nat.leb arg nth IsString negb].
  destruct units as [|u units]; [congruence|].
  change (String_Length (VString (u :: units)) =? 0) with false. cbv iota.
  rewrite String_Write_fresh_vector. reflexivity.
Qed.

Section Lifetime_facts.
Context {E : Type} (v8 : V8) (eng : Impl.t E).

Lemma calls_extend_queue (evs : list Event) :
  forallb is_call evs = true ->
  forall h : Host E,
  exists h1 more,
    run v8 eng evs h = Some h1 /\
    work_queue h1 = work_queue h ++ more /\
    called h1 = called h.
Proof.
  induction evs as [|ev evs IH]; intros Hcalls h.
  - exists h, []. rewrite app_nil_r. now repeat split.
  - simpl in Hcalls. apply andb_prop in Hcalls as [Hev Hevs].
    destruct ev as [m info| | |]; try discriminate.
    destruct (call_extends_queue v8 eng m info h) as [more [Hq [_ Hc]]].
    destruct (IH Hevs (snd (Init v8 eng m info h))) as [h1 [more' [Hrun [Hq' Hc']]]].
    exists h1, (more ++ more'). cbn [run step]. split; [exact Hrun|].
    split; [rewrite Hq', Hq, app_assoc; reflexivity | congruence].
Qed.

(** [Execute] hands the engine the whole vector. *)
Lemma Execute_check_spelling (w : CheckSpellingWorker.t) (g : Engine E) :
  Execute eng (check_spelling w) g =
  match Impl.CheckSpelling eng (CheckSpellingWorker.text w) (state g) with
  | Returns (r, e) =>
      Returns (check_spelling
                 {| CheckSpellingWorker.callback := CheckSpellingWorker.callback w;
                    CheckSpellingWorker.errmsg := CheckSpellingWorker.errmsg w;
                    CheckSpellingWorker.text := CheckSpellingWorker.text w;
                    CheckSpellingWorker.misspelled_ranges := r |},
               {| state := e;
                  received := received g ++
                    [asked_CheckSpelling (CheckSpellingWorker.text w)] |})
  | Faults => Faults
  end.
Proof.
  unfold Execute, CheckSpellingWorker.Execute, impl_CheckSpelling.
  rewrite firstn_all.
  destruct (Impl.CheckSpelling eng (CheckSpellingWorker.text w) (state g)) as [[r e]|];
    reflexivity.
Qed.
End Lifetime_facts.

(** C4. For a non-empty text, the vector the worker holds and hands to the
    engine's CheckSpelling is the caller's code units followed by one
    terminating zero, its length one more than the text's.  It is built
    when the call is made; no later call changes the queued worker, and
    [Execute] passes the vector whole and leaves it as it was. *)
Theorem CheckSpellingAsync_hands_text_and_terminator {E : Type} (v8 : V8) (eng : Impl.t E)
    (h : Host E) (units : list uint16_t) (callback : Value) (rest : list Value)
    (evs : list Event) :
  units <> [] ->
  forallb is_call evs = true ->
  let w := CheckSpellingWorker.new callback (units ++ [0%Z]) in
  exists h1 later,
    run v8 eng evs (snd (CheckSpellingAsync (VString units :: callback :: rest) h)) = Some h1 /\
    work_queue h1 = work_queue h ++ check_spelling w :: later /\
    length (CheckSpellingWorker.text w) = S (length units) /\
    forall g : Engine E,
      Execute eng (check_spelling w) g =
      match Impl.CheckSpelling eng (units ++ [0%Z]) (state g) with
      | Returns (r, e) =>
          Returns (check_spelling
                     {| CheckSpellingWorker.callback := callback;
                        CheckSpellingWorker.errmsg := None;
                        CheckSpellingWorker.text := units ++ [0%Z];
                        CheckSpellingWorker.misspelled_ranges := r |},
                   {| state := e;
                      received := received g ++ [asked_CheckSpelling (units ++ [0%Z])] |})
      | Faults => Faults
      end.
Proof.
  intros Hne Hcalls w.
  rewrite CheckSpellingAsync_queues by exact Hne.
  destruct (calls_extend_queue v8 eng evs Hcalls
              (AsyncQueueWorker (check_spelling w) h)) as [h1 [more [Hrun [Hq _]]]].
  exists h1, more. split; [exact Hrun|]. split.
  - rewrite Hq. cbn [work_queue AsyncQueueWorker]. rewrite <- app_assoc. reflexivity.
  - split.
    + unfold w. cbn [CheckSpellingWorker.text CheckSpellingWorker.new].
      rewrite length_app. simpl. lia.
    + intro g. apply Execute_check_spelling.
Qed.

Lemma CheckSpellingAsync_hands_text_and_terminator_witness :
  exists h1 later,
    run ascii_v8 (wordlist_engine true) [Calls js_add [VString [97]%Z]]
      (snd (CheckSpellingAsync [VString [97]%Z; VFunction 0] (New []))) = Some h1 /\
    work_queue h1 =
      [] ++ check_spelling (CheckSpellingWorker.new (VFunction 0) ([97] ++ [0])%Z) :: later.
Proof.
  destruct (CheckSpellingAsync_hands_text_and_terminator ascii_v8 (wordlist_engine true)
              (New []) [97%Z] (VFunction 0) [] [Calls js_add [VString [97]%Z]])
    as [h1 [later [Hrun [Hq _]]]].
  - discriminate.
  - reflexivity.
  - exists h1, later. split; assumption.
Defined.

(** Against C4 as it stands: for the text "a" the engine is handed two code
    units, the letter and a zero, not the one code unit of the text. *)
Lemma engine_is_handed_the_terminator_too :
  drain ascii_v8 (wordlist_engine true)
    (snd (CheckSpellingAsync [VString [97]%Z; VFunction 0] (New []))) =
  Some {| that := {| impl := {| state := [];
                                received := [asked_CheckSpelling [97; 0]%Z] |};
                     dictData := None |};
          work_queue := [];
          finished := [];
          called := [{| callee := VFunction 0;
                        argv := [VNull;
                                 VArray [VObject [("start", VInteger 0);
                                                  ("end", VInteger 1)]]] |}] |} /\
  [asked_CheckSpelling [97; 0]%Z] <> [asked_CheckSpelling [97]%Z] /\
  length [97; 0]%Z <> length [97]%Z.
Proof. repeat split; discriminate. Qed.

(** ** Workers from queue to completion *)

Lemma remove_at_perm {A : Type} (l : list A) :
  forall k x, nth_error l k = Some x -> Permutation l (x :: remove_at k l).
Proof.
  induction l as [|a l IH]; intros [|k] x H; simpl in H; try discriminate.
  - injection H as <-. reflexivity.
  - change (remove_at (S k) (a :: l)) with (a :: remove_at k l).
    rewrite perm_swap. constructor. now apply IH.
Qed.

Lemma Forall_remove_at {A : Type} (P : A -> Prop) (l : list A) (k : nat) (x : A) :
  nth_error l k = Some x -> Forall P l -> P x /\ Forall P (remove_at k l).
Proof.
  intros Hk Hl.
  apply (Permutation_Forall (remove_at_perm l k x Hk)) in Hl.
  inversion Hl; subst. now split.
Qed.

Lemma remove_at_last {A : Type} (l : list A) (x : A) :
  nth_error (l ++ [x]) (length l) = Some x /\ remove_at (length l) (l ++ [x]) = l.
Proof.
  unfold remove_at. induction l as [|a l [IH1 IH2]]; [now split|].
  split; [exact IH1|]. simpl in *. now rewrite IH2.
Qed.

Section Pool_facts.
Context {E : Type} (v8 : V8) (eng : Impl.t E).

(** [Execute] stores the engine's answer and nothing else: the callback
    and the error message stay as they were. *)
Lemma Execute_keeps (w w' : AsyncWorker) (g g' : Engine E) :
  Execute eng w g = Returns (w', g') ->
  worker_callback w' = worker_callback w /\ worker_errmsg w' = worker_errmsg w.
Proof.
  destruct w as [w|w]; unfold Execute, CheckSpellingWorker.Execute, impl_CheckSpelling,
    GetCorrectionsForMisspellingWorker.Execute, impl_GetCorrectionsForMisspelling.
  - destruct (Impl.CheckSpelling eng _ (state g)) as [[r e]|]; [|discriminate].
    intro H. injection H as <- <-. now split.
  - destruct (Impl.GetCorrectionsForMisspelling eng _ (state g)) as [[r e]|]; [|discriminate].
    intro H. injection H as <- <-. now split.
Qed.

Lemma Execute_faults (w : AsyncWorker) (g : Engine E) :
  Execute eng w g = Faults <-> engine_faults_on eng w (state g).
Proof.
  destruct w as [w|w]; unfold engine_faults_on, Execute, CheckSpellingWorker.Execute,
    impl_CheckSpelling, GetCorrectionsForMisspellingWorker.Execute,
    impl_GetCorrectionsForMisspelling; rewrite ?firstn_all.
  - destruct (Impl.CheckSpelling eng _ (state g)) as [[r e]|]; split; congruence.
  - destruct (Impl.GetCorrectionsForMisspelling eng _ (state g)) as [[r e]|];
      split; congruence.
Qed.

Lemma sound_engine_returns (w : AsyncWorker) (g : Engine E) :
  never_faults eng -> exists w' g', Execute eng w g = Returns (w', g').
Proof.
  intros [Hc Hg].
  destruct (Execute eng w g) as [[w' g']|] eqn:Hx; [now exists w', g'|].
  apply Execute_faults in Hx. destruct w as [w|w]; simpl in Hx.
  - now apply Hc in Hx.
  - now apply Hg in Hx.
Qed.

Lemma Execute_asks (w w' : AsyncWorker) (g g' : Engine E) :
  Execute eng w g = Returns (w', g') ->
  received g' = received g ++ [worker_question w].
Proof.
  destruct w as [w|w]; unfold Execute, CheckSpellingWorker.Execute, impl_CheckSpelling,
    GetCorrectionsForMisspellingWorker.Execute, impl_GetCorrectionsForMisspelling;
    rewrite ?firstn_all.
  - destruct (Impl.CheckSpelling eng _ (state g)) as [[r e]|]; [|discriminate].
    intro H. injection H as <- <-. reflexivity.
  - destruct (Impl.GetCorrectionsForMisspelling eng _ (state g)) as [[r e]|]; [|discriminate].
    intro H. injection H as <- <-. reflexivity.
Qed.

Lemma WorkComplete_callee (w : AsyncWorker) :
  callee (WorkComplete v8 w) = worker_callback w.
Proof.
  unfold WorkComplete. destruct (worker_errmsg w); [reflexivity|].
  destruct w as [w|w]; cbn [HandleOKCallback worker_callback].
  - now rewrite CheckSpellingWorker_HandleOKCallback_argv.
  - now rewrite GetCorrectionsForMisspellingWorker_HandleOKCallback_argv.
Qed.

Lemma WorkComplete_null_and_array (w : AsyncWorker) :
  worker_errmsg w = None -> null_and_array (WorkComplete v8 w).
Proof.
  intro H. unfold WorkComplete, null_and_array. rewrite H.
  destruct w as [w|w]; cbn [HandleOKCallback].
  - rewrite CheckSpellingWorker_HandleOKCallback_argv. eexists; reflexivity.
  - rewrite GetCorrectionsForMisspellingWorker_HandleOKCallback_argv. eexists; reflexivity.
Qed.

(** All that a pool thread does to the host. *)
Lemma execute_at_effect (k : nat) (h h' : Host E) :
  execute_at eng k h = Some h' ->
  h' = h \/
  exists w w' g',
    nth_error (work_queue h) k = Some w /\
    Execute eng w (impl (that h)) = Returns (w', g') /\
    h' = {| that := with_impl g' (that h);
            work_queue := remove_at k (work_queue h);
            finished := finished h ++ [w'];
            called := called h |}.
Proof.
  unfold execute_at. destruct (nth_error (work_queue h) k) as [w|] eqn:Hk.
  - destruct (Execute eng w (impl (that h))) as [[w' g']|] eqn:Hx; [|discriminate].
    intro H. injection H as <-. right. now exists w, w', g'.
  - intro H. injection H as <-. now left.
Qed.

(** All that a completion does to the host. *)
Lemma complete_at_effect (k : nat) (h h' : Host E) :
  complete_at v8 k h = Some h' ->
  h' = h \/
  exists w,
    nth_error (finished h) k = Some w /\
    IsFunction (worker_callback w) = true /\
    h' = {| that := that h;
            work_queue := work_queue h;
            finished := remove_at k (finished h);
            called := called h ++ [WorkComplete v8 w] |}.
Proof.
  unfold complete_at, complete. destruct (nth_error (finished h) k) as [w|] eqn:Hk.
  - cbn [that work_queue finished called]. rewrite WorkComplete_callee.
    destruct (IsFunction (worker_callback w)) eqn:Hf; [|discriminate].
    intro H. injection H as <-. right. now exists w.
  - intro H. injection H as <-. now left.
Qed.

(** Serving is a pool thread at the head of the queue, followed at once by
    the completion of the worker that has just finished. *)
Lemma serve_next_two_steps (h : Host E) :
  serve_next v8 eng h =
  match execute_at eng 0 h with
  | Some h1 => complete_at v8 (length (finished h)) h1
  | None => None
  end.
Proof.
  unfold serve_next, execute_at, run_worker.
  destruct (work_queue h) as [|w rest] eqn:Hq; cbn [nth_error that work_queue finished called].
  - unfold complete_at.
    assert (Hn : nth_error (finished h) (length (finished h)) = None)
      by (apply nth_error_None; lia).
    now rewrite Hn.
  - destruct (Execute eng w (impl (that h))) as [[w' g']|]; [|reflexivity].
    unfold complete_at. cbn [that work_queue finished called].
    destruct (remove_at_last (finished h) w') as [-> ->]. reflexivity.
Qed.

(** What holds across a pool thread's step and across a completion holds
    across every event that is not a call. *)
Lemma pool_step_cases (R : Host E -> Host E -> Prop) :
  (forall h, R h h) ->
  (forall a b c, R a b -> R b c -> R a c) ->
  (forall k h h', execute_at eng k h = Some h' -> R h h') ->
  (forall k h h', complete_at v8 k h = Some h' -> R h h') ->
  forall ev h h', is_call ev = false -> step v8 eng ev h = Some h' -> R h h'.
Proof.
  intros Hrefl Htrans Hexec Hcomp [m info| |k|k] h h' Hev Hs; cbn [step] in Hs.
  - discriminate.
  - rewrite serve_next_two_steps in Hs.
    destruct (execute_at eng 0 h) as [h1|] eqn:H1; [|discriminate].
    eapply Htrans; [eapply Hexec, H1 | eapply Hcomp, Hs].
  - eapply Hexec, Hs.
  - eapply Hcomp, Hs.
Qed.

Lemma step_invariant (P : Host E -> Prop) :
  (forall m info h, P h -> P (snd (Init v8 eng m info h))) ->
  (forall k h h', P h -> execute_at eng k h = Some h' -> P h') ->
  (forall k h h', P h -> complete_at v8 k h = Some h' -> P h') ->
  forall ev h h', P h -> step v8 eng ev h = Some h' -> P h'.
Proof.
  intros Hcall Hexec Hcomp ev h h' HP Hs.
  destruct (is_call ev) eqn:Hev.
  - destruct ev as [m info| | |]; try discriminate.
    cbn [step] in Hs. injection Hs as <-. now apply Hcall.
  - revert HP.
    eapply (pool_step_cases (fun a b => P a -> P b)); [ | | | | exact Hev | exact Hs]; eauto.
Qed.

Lemma run_invariant (P : Host E -> Prop) :
  (forall ev h h', P h -> step v8 eng ev h = Some h' -> P h') ->
  forall evs h h', P h -> run v8 eng evs h = Some h' -> P h'.
Proof.
  intros Hstep. induction evs as [|ev evs IH]; intros h h' HP Hrun; simpl in Hrun.
  - injection Hrun as <-. exact HP.
  - destruct (step v8 eng ev h) as [h1|] eqn:Hs; [|discriminate].
    eapply IH; [|exact Hrun]. eapply Hstep; eassumption.
Qed.

Lemma run_app (evs later : list Event) (h : Host E) :
  run v8 eng (evs ++ later) h =
  match run v8 eng evs h with
  | Some h1 => run v8 eng later h1
  | None => None
  end.
Proof.
  revert h. induction evs as [|ev evs IH]; intro h; simpl; [reflexivity|].
  destruct (step v8 eng ev h); [apply IH | reflexivity].
Qed.

(** No worker carries an error message, queued or waiting. *)
Lemma step_without_error (ev : Event) (h h' : Host E) :
  Forall (fun w => worker_errmsg w = None) (work_queue h) /\
  Forall (fun w => worker_errmsg w = None) (finished h) ->
  step v8 eng ev h = Some h' ->
  Forall (fun w => worker_errmsg w = None) (work_queue h') /\
  Forall (fun w => worker_errmsg w = None) (finished h').
Proof.
  revert ev h h'. apply step_invariant.
  - intros m info h [Hq Hf].
    destruct (call_extends_queue v8 eng m info h) as [more [Hq' [Hmore _]]].
    rewrite Hq', call_keeps_finished. split; [|exact Hf]. apply Forall_app. now split.
  - intros k h h' [Hq Hf] Hx.
    apply execute_at_effect in Hx as [->|[w [w' [g' [Hk [Hx ->]]]]]]; [now split|].
    cbn [work_queue finished].
    destruct (Forall_remove_at _ _ _ _ Hk Hq) as [Hw Hrest].
    split; [exact Hrest|]. apply Forall_app. split; [exact Hf|].
    constructor; [|constructor].
    destruct (Execute_keeps _ _ _ _ Hx) as [_ Herr]. congruence.
  - intros k h h' [Hq Hf] Hx.
    apply complete_at_effect in Hx as [->|[w [Hk [_ ->]]]]; [now split|].
    cbn [work_queue finished]. split; [exact Hq|].
    now destruct (Forall_remove_at _ _ _ _ Hk Hf).
Qed.

Lemma queued_without_error (created : E) (evs : list Event) (h : Host E) :
  run v8 eng evs (New created) = Some h ->
  Forall (fun w => worker_errmsg w = None) (work_queue h) /\
  Forall (fun w => worker_errmsg w = None) (finished h).
Proof.
  apply (run_invariant
           (fun h => Forall (fun w => worker_errmsg w = None) (work_queue h) /\
                     Forall (fun w => worker_errmsg w = None) (finished h))).
  - intros ev h0 h1. apply step_without_error.
  - split; constructor.
Qed.

(** Every completion made so far has a null error and an array. *)
Lemma step_completions (ev : Event) (h h' : Host E) :
  (Forall (fun w => worker_errmsg w = None) (work_queue h) /\
   Forall (fun w => worker_errmsg w = None) (finished h)) /\
  Forall null_and_array (called h) ->
  step v8 eng ev h = Some h' ->
  (Forall (fun w => worker_errmsg w = None) (work_queue h') /\
   Forall (fun w => worker_errmsg w = None) (finished h')) /\
  Forall null_and_array (called h').
Proof.
  revert ev h h'. apply step_invariant.
  - intros m info h [Hw Hc]. split.
    + apply (step_without_error (Calls m info) h); [exact Hw | reflexivity].
    + destruct (call_extends_queue v8 eng m info h) as [more [_ [_ Hc']]].
      now rewrite Hc'.
  - intros k h h' [Hw Hc] Hx. split.
    + apply (step_without_error (Executes k) h); [exact Hw | exact Hx].
    + apply execute_at_effect in Hx as [->|[w [w' [g' [_ [_ ->]]]]]]; exact Hc.
  - intros k h h' [Hw Hc] Hx. split.
    + apply (step_without_error (Completes k) h); [exact Hw | exact Hx].
    + apply complete_at_effect in Hx as [->|[w [Hk [_ ->]]]]; [exact Hc|].
      cbn [called]. apply Forall_app. split; [exact Hc|]. constructor; [|constructor].
      apply WorkComplete_null_and_array.
      now destruct (Forall_remove_at _ _ _ _ Hk (proj2 Hw)).
Qed.

(** Neither a pool thread nor a completion touches [dictData]. *)
Lemma pool_keeps_dictData (ev : Event) (h h' : Host E) :
  is_call ev = false ->
  step v8 eng ev h = Some h' ->
  dictData (that h') = dictData (that h).
Proof.
  intros Hcall Hs.
  eapply (pool_step_cases (fun a b => dictData (that b) = dictData (that a)));
    [ | | | | exact Hcall | exact Hs].
  - reflexivity.
  - intros a b c Hab Hbc. congruence.
  - intros k a b Hx.
    apply execute_at_effect in Hx as [->|[w [w' [g' [_ [_ ->]]]]]]; reflexivity.
  - intros k a b Hx.
    apply complete_at_effect in Hx as [->|[w [_ [_ ->]]]]; reflexivity.
Qed.

(** What [dictData] holds stays until a call puts another buffer there. *)
Lemma dictData_stays (evs : list Event) :
  forallb (fun ev => negb (repins ev)) evs = true ->
  forall h h' : Host E,
    run v8 eng evs h = Some h' -> dictData (that h') = dictData (that h).
Proof.
  induction evs as [|ev evs IH]; intros Hevs h h' Hrun; simpl in *.
  - now injection Hrun as <-.
  - apply andb_prop in Hevs as [Hev Hevs]. apply negb_true_iff in Hev.
    destruct (step v8 eng ev h) as [h1|] eqn:Hs; [|discriminate].
    rewrite (IH Hevs _ _ Hrun).
    destruct (is_call ev) eqn:Hcall; [|now apply (pool_keeps_dictData ev)].
    destruct ev as [m info| | |]; try discriminate.
    cbn [step] in Hs. injection Hs as <-. now apply call_keeps_dictData.
Qed.

Lemma only_buffers_pinned (created : E) (evs : list Event) (h : Host E) :
  run v8 eng evs (New created) = Some h ->
  Forall (fun b => Buffer_HasInstance b = true) (pinned (that h)).
Proof.
  apply (run_invariant
           (fun h => Forall (fun b => Buffer_HasInstance b = true) (pinned (that h)))).
  - intros ev h0 h1 HP Hs. destruct (is_call ev) eqn:Hcall.
    + destruct ev as [m info| | |]; try discriminate.
      cbn [step] in Hs. injection Hs as <-. now apply call_pins_buffers_only.
    + unfold pinned in *. now rewrite (pool_keeps_dictData ev h0 h1 Hcall Hs).
  - constructor.
Qed.

(** *** Accounts that every event keeps *)

(** An account that every event extends by its own share is, after a run,
    extended by the shares of the events in order. *)
Lemma run_tally {A : Type} (tally : Host E -> list A) (share : Event -> list A) :
  (forall ev h h', step v8 eng ev h = Some h' -> tally h' = tally h ++ share ev) ->
  forall evs h h',
    run v8 eng evs h = Some h' -> tally h' = tally h ++ flat_map share evs.
Proof.
  intro Hstep. induction evs as [|ev evs IH]; intros h h' Hrun; simpl in Hrun.
  - injection Hrun as <-. now rewrite app_nil_r.
  - destruct (step v8 eng ev h) as [h1|] eqn:Hs; [|discriminate].
    rewrite (IH _ _ Hrun), (Hstep _ _ _ Hs), <- app_assoc. reflexivity.
Qed.

(** The same for an account kept up to the order of its entries. *)
Lemma run_tally_perm {A : Type} (tally : Host E -> list A) (share : Event -> list A) :
  (forall ev h h',
      step v8 eng ev h = Some h' -> Permutation (tally h') (tally h ++ share ev)) ->
  forall evs h h',
    run v8 eng evs h = Some h' -> Permutation (tally h') (tally h ++ flat_map share evs).
Proof.
  intro Hstep. induction evs as [|ev evs IH]; intros h h' Hrun; simpl in Hrun.
  - injection Hrun as <-. now rewrite app_nil_r.
  - destruct (step v8 eng ev h) as [h1|] eqn:Hs; [|discriminate].
    rewrite (IH _ _ Hrun). cbn [flat_map]. rewrite app_assoc.
    apply Permutation_app_tail. now apply Hstep.
Qed.

Lemma question_not_from_pool (ev : Event) :
  filter from_pool (option_list (question v8 ev)) = [].
Proof.
  destruct ev as [[] info| | |]; unfold question; method_cases; reflexivity.
Qed.

Lemma not_a_call (ev : Event) :
  is_call ev = false -> question v8 ev = None /\ queued_by v8 ev = None /\ pinned_by ev = None.
Proof. destruct ev; [discriminate| | |]; now repeat split. Qed.

Lemma step_caller_questions (ev : Event) (h h' : Host E) :
  step v8 eng ev h = Some h' ->
  filter (fun c => negb (from_pool c)) (received (impl (that h'))) =
  filter (fun c => negb (from_pool c)) (received (impl (that h))) ++
  option_list (question v8 ev).
Proof.
  destruct (is_call ev) eqn:Hcall.
  - destruct ev as [m info| | |]; try discriminate. cbn [step]. intro Hs.
    injection Hs as <-.
    destruct (call_effect v8 eng m info h) as [_ [_ [Hr _]]].
    rewrite Hr, filter_app. f_equal.
    destruct m; unfold question; method_cases; reflexivity.
  - destruct (not_a_call ev Hcall) as [-> _]. cbn [option_list]. rewrite app_nil_r.
    intro Hs.
    eapply (pool_step_cases
             (fun a b => filter (fun c => negb (from_pool c)) (received (impl (that b))) =
                         filter (fun c => negb (from_pool c)) (received (impl (that a)))));
      [reflexivity | congruence | | | exact Hcall | exact Hs].
    + intros k a b Hx.
      apply execute_at_effect in Hx as [->|[w [w' [g' [_ [Hx ->]]]]]]; [reflexivity|].
      cbn [that impl with_impl]. rewrite (Execute_asks _ _ _ _ Hx), filter_app.
      destruct w; simpl; now rewrite app_nil_r.
    + intros k a b Hx.
      apply complete_at_effect in Hx as [->|[w [_ [_ ->]]]]; reflexivity.
Qed.

Lemma step_dictData (ev : Event) (h h' : Host E) :
  step v8 eng ev h = Some h' ->
  dictData (that h') =
  match pinned_by ev with Some b => Some b | None => dictData (that h) end.
Proof.
  destruct (is_call ev) eqn:Hcall.
  - destruct ev as [m info| | |]; try discriminate. cbn [step]. intro Hs.
    injection Hs as <-. apply call_effect.
  - destruct (not_a_call ev Hcall) as [_ [_ ->]]. now apply pool_keeps_dictData.
Qed.

Lemma step_callbacks (ev : Event) (h h' : Host E) :
  step v8 eng ev h = Some h' ->
  Permutation (callbacks_of h')
    (callbacks_of h ++ map worker_callback (option_list (queued_by v8 ev))).
Proof.
  unfold callbacks_of. destruct (is_call ev) eqn:Hcall.
  - destruct ev as [m info| | |]; try discriminate. cbn [step]. intro Hs.
    injection Hs as <-.
    destruct (call_effect v8 eng m info h) as [Hq [Hc _]].
    rewrite Hq, Hc, call_keeps_finished, !map_app, <- !app_assoc. reflexivity.
  - destruct (not_a_call ev Hcall) as [_ [-> _]]. cbn [option_list map].
    rewrite app_nil_r. intro Hs.
    eapply (pool_step_cases
             (fun a b =>
                Permutation
                  (map callee (called b) ++ map worker_callback (finished b ++ work_queue b))
                  (map callee (called a) ++ map worker_callback (finished a ++ work_queue a))));
      [reflexivity | | | | exact Hcall | exact Hs].
    + intros a b c Hab Hbc. now rewrite Hbc.
    + intros k a b Hx.
      apply execute_at_effect in Hx as [->|[w [w' [g' [Hk [Hx ->]]]]]]; [reflexivity|].
      cbn [called finished work_queue]. apply Permutation_app_head.
      destruct (Execute_keeps _ _ _ _ Hx) as [Hcb _].
      rewrite (remove_at_perm _ _ _ Hk) at 2.
      rewrite !map_app. cbn [map]. rewrite Hcb, <- app_assoc.
      apply Permutation_app_head. reflexivity.
    + intros k a b Hx.
      apply complete_at_effect in Hx as [->|[w [Hk [_ ->]]]]; [reflexivity|].
      cbn [called finished work_queue].
      rewrite (remove_at_perm _ _ _ Hk) at 2.
      rewrite !map_app. cbn [map]. rewrite WorkComplete_callee, <- app_assoc.
      apply Permutation_app_head. cbn [app]. reflexivity.
Qed.

Lemma step_pool_questions (ev : Event) (h h' : Host E) :
  step v8 eng ev h = Some h' ->
  Permutation (pool_questions_of h')
    (pool_questions_of h ++ map worker_question (option_list (queued_by v8 ev))).
Proof.
  unfold pool_questions_of. destruct (is_call ev) eqn:Hcall.
  - destruct ev as [m info| | |]; try discriminate. cbn [step]. intro Hs.
    injection Hs as <-.
    destruct (call_effect v8 eng m info h) as [Hq [_ [Hr _]]].
    rewrite Hq, Hr, filter_app, question_not_from_pool, app_nil_r, map_app, app_assoc.
    reflexivity.
  - destruct (not_a_call ev Hcall) as [_ [-> _]]. cbn [option_list map].
    rewrite app_nil_r. intro Hs.
    eapply (pool_step_cases
             (fun a b =>
                Permutation
                  (filter from_pool (received (impl (that b))) ++
                   map worker_question (work_queue b))
                  (filter from_pool (received (impl (that a))) ++
                   map worker_question (work_queue a))));
      [reflexivity | | | | exact Hcall | exact Hs].
    + intros a b c Hab Hbc. now rewrite Hbc.
    + intros k a b Hx.
      apply execute_at_effect in Hx as [->|[w [w' [g' [Hk [Hx ->]]]]]]; [reflexivity|].
      cbn [that impl with_impl work_queue].
      rewrite (Execute_asks _ _ _ _ Hx), filter_app.
      rewrite (remove_at_perm _ _ _ Hk) at 2. cbn [map].
      rewrite <- app_assoc. apply Permutation_app_head.
      destruct w; reflexivity.
    + intros k a b Hx.
      apply complete_at_effect in Hx as [->|[w [_ [_ ->]]]]; reflexivity.
Qed.

(** *** When nothing goes wrong *)

Lemma queued_by_without_error (ev : Event) (w : AsyncWorker) :
  queued_by v8 ev = Some w -> worker_errmsg w = None.
Proof.
  destruct ev as [[] info| | |]; unfold queued_by; method_cases; try discriminate;
    intro H; injection H as <-; reflexivity.
Qed.

(** With an engine that returns and callbacks that can be called, no event
    ends the process. *)
Lemma sound_step (ev : Event) (h : Host E) :
  never_faults eng ->
  Forall callable (work_queue h) /\ Forall callable (finished h) ->
  Forall callable (option_list (queued_by v8 ev)) ->
  exists h',
    step v8 eng ev h = Some h' /\
    Forall callable (work_queue h') /\ Forall callable (finished h').
Proof.
  intros Hsound [Hq Hf] Hev.
  assert (Hexec : forall k (a : Host E),
             Forall callable (work_queue a) /\ Forall callable (finished a) ->
             exists b, execute_at eng k a = Some b /\
                       Forall callable (work_queue b) /\ Forall callable (finished b)).
  { intros k a [Ha Hb]. unfold execute_at.
    destruct (nth_error (work_queue a) k) as [w|] eqn:Hk; [|now exists a].
    destruct (sound_engine_returns w (impl (that a)) Hsound) as [w' [g' Hx]].
    rewrite Hx. eexists. split; [reflexivity|]. cbn [work_queue finished].
    destruct (Forall_remove_at _ _ _ _ Hk Ha) as [Hw Hrest].
    split; [exact Hrest|]. apply Forall_app. split; [exact Hb|].
    constructor; [|constructor]. unfold callable in *.
    now destruct (Execute_keeps _ _ _ _ Hx) as [-> _]. }
  assert (Hcomp : forall k (a : Host E),
             Forall callable (work_queue a) /\ Forall callable (finished a) ->
             exists b, complete_at v8 k a = Some b /\
                       Forall callable (work_queue b) /\ Forall callable (finished b)).
  { intros k a [Ha Hb]. unfold complete_at, complete.
    destruct (nth_error (finished a) k) as [w|] eqn:Hk; [|now exists a].
    destruct (Forall_remove_at _ _ _ _ Hk Hb) as [Hw Hrest].
    cbn [that work_queue finished called]. rewrite WorkComplete_callee, Hw.
    eexists. split; [reflexivity|]. now split. }
  destruct ev as [m info| |k|k]; cbn [step].
  - eexists. split; [reflexivity|].
    destruct (call_effect v8 eng m info h) as [Hq' _].
    rewrite Hq', call_keeps_finished. split; [|exact Hf]. apply Forall_app. now split.
  - rewrite serve_next_two_steps.
    destruct (Hexec 0 h (conj Hq Hf)) as [h1 [-> H1]]. now apply Hcomp.
  - now apply Hexec.
  - now apply Hcomp.
Qed.

Lemma sound_run (evs : list Event) :
  never_faults eng ->
  Forall callable (requested v8 evs) ->
  forall h : Host E,
    Forall callable (work_queue h) /\ Forall callable (finished h) ->
    exists h',
      run v8 eng evs h = Some h' /\
      Forall callable (work_queue h') /\ Forall callable (finished h').
Proof.
  intros Hsound. induction evs as [|ev evs IH]; intros Hreq h Hh.
  - now exists h.
  - unfold requested in Hreq. cbn [flat_map] in Hreq.
    apply Forall_app in Hreq as [Hev Hrest].
    destruct (sound_step ev h Hsound Hh Hev) as [h1 [Hs H1]].
    destruct (IH Hrest h1 H1) as [h' [Hrun H']].
    exists h'. cbn [run]. now rewrite Hs.
Qed.

(** *** Working the queue off *)

Lemma complete_first_shortens (h h' : Host E) :
  complete_at v8 0 h = Some h' ->
  work_queue h' = work_queue h /\
  length (finished h') = length (finished h) - 1.
Proof.
  unfold complete_at, complete. destruct (finished h) as [|w rest] eqn:Hf;
    cbn [nth_error that work_queue finished called].
  - intro H. injection H as <-. now rewrite Hf.
  - destruct (IsFunction (callee (WorkComplete v8 w))); [|discriminate].
    intro H. injection H as <-. cbn [work_queue finished]. split; [reflexivity|].
    unfold remove_at. simpl. lia.
Qed.

Lemma serve_next_shortens (h h' : Host E) :
  serve_next v8 eng h = Some h' ->
  finished h' = finished h /\
  length (work_queue h') = length (work_queue h) - 1.
Proof.
  unfold serve_next, run_worker, complete. destruct (work_queue h) as [|w rest] eqn:Hq.
  - intro H. injection H as <-. now rewrite Hq.
  - cbn [that work_queue finished called].
    destruct (Execute eng w (impl (that h))) as [[w' g']|]; [|discriminate].
    cbn [that work_queue finished called].
    destruct (IsFunction (callee (WorkComplete v8 w'))); [|discriminate].
    intro H. injection H as <-. cbn [work_queue finished]. split; [reflexivity|].
    simpl. lia.
Qed.

Lemma completions_shorten (n : nat) :
  forall h h' : Host E,
    run v8 eng (repeat (Completes 0) n) h = Some h' ->
    work_queue h' = work_queue h /\
    length (finished h') = length (finished h) - n.
Proof.
  induction n as [|n IH]; intros h h' Hrun; simpl in Hrun.
  - injection Hrun as <-. split; [reflexivity | lia].
  - destruct (complete_at v8 0 h) as [h1|] eqn:H1; [|discriminate].
    apply complete_first_shortens in H1 as [Hq Hf].
    destruct (IH _ _ Hrun) as [Hq' Hf']. split; [congruence | lia].
Qed.

Lemma servings_shorten (n : nat) :
  forall h h' : Host E,
    run v8 eng (repeat Serves n) h = Some h' ->
    finished h' = finished h /\
    length (work_queue h') = length (work_queue h) - n.
Proof.
  induction n as [|n IH]; intros h h' Hrun; simpl in Hrun.
  - injection Hrun as <-. split; [reflexivity | lia].
  - destruct (serve_next v8 eng h) as [h1|] eqn:H1; [|discriminate].
    apply serve_next_shortens in H1 as [Hf Hq].
    destruct (IH _ _ Hrun) as [Hf' Hq']. split; [congruence | lia].
Qed.

(** When the work has been done this way, nothing is left to do. *)
Lemma drain_leaves_nothing (h h' : Host E) :
  drain v8 eng h = Some h' -> work_queue h' = [] /\ finished h' = [].
Proof.
  unfold drain. rewrite run_app.
  destruct (run v8 eng (repeat (Completes 0) (length (finished h))) h) as [h1|] eqn:H1;
    [|discriminate].
  intro H2. apply completions_shorten in H1 as [Hq Hf].
  rewrite <- Hq in H2. apply servings_shorten in H2 as [Hf' Hq'].
  split; apply length_zero_iff_nil; [lia | rewrite Hf'; lia].
Qed.

Lemma drain_asks_for_nothing (h : Host E) :
  requested v8 (repeat (Completes 0) (length (finished h)) ++
                repeat Serves (length (work_queue h))) = [].
Proof.
  unfold requested. rewrite flat_map_app.
  generalize (length (finished h)) as n, (length (work_queue h)) as m.
  intros n m.
  assert (H1 : flat_map (fun ev => option_list (queued_by v8 ev)) (repeat (Completes 0) n)
               = []) by (induction n; [reflexivity | exact IHn]).
  assert (H2 : flat_map (fun ev => option_list (queued_by v8 ev)) (repeat Serves m)
               = []) by (induction m; [reflexivity | exact IHm]).
  now rewrite H1, H2.
Qed.
End Pool_facts.

Lemma requested_callbacks (v8 : V8) (evs : list Event) :
  flat_map (fun ev => map worker_callback (option_list (queued_by v8 ev))) evs =
  map worker_callback (requested v8 evs).
Proof.
  unfold requested. induction evs as [|ev evs IH]; [reflexivity|].
  cbn [flat_map]. now rewrite map_app, IH.
Qed.

Lemma requested_questions (v8 : V8) (evs : list Event) :
  flat_map (fun ev => map worker_question (option_list (queued_by v8 ev))) evs =
  map worker_question (requested v8 evs).
Proof.
  unfold requested. induction evs as [|ev evs IH]; [reflexivity|].
  cbn [flat_map]. now rewrite map_app, IH.
Qed.

(** Through any run, the callbacks of the tasks taken on are those there
    were, and those of the requests made since. *)
Lemma run_callbacks {E : Type} (v8 : V8) (eng : Impl.t E)
    (evs : list Event) (h h' : Host E) :
  run v8 eng evs h = Some h' ->
  Permutation (callbacks_of h') (callbacks_of h ++ map worker_callback (requested v8 evs)).
Proof.
  intro Hrun. rewrite <- requested_callbacks.
  apply (run_tally_perm v8 eng callbacks_of
           (fun ev => map worker_callback (option_list (queued_by v8 ev)))
           (step_callbacks v8 eng) evs h h' Hrun).
Qed.

Lemma run_completions {E : Type} (v8 : V8) (eng : Impl.t E)
    (evs : list Event) (h h' : Host E) :
  (Forall (fun w => worker_errmsg w = None) (work_queue h) /\
   Forall (fun w => worker_errmsg w = None) (finished h)) /\
  Forall null_and_array (called h) ->
  run v8 eng evs h = Some h' ->
  (Forall (fun w => worker_errmsg w = None) (work_queue h') /\
   Forall (fun w => worker_errmsg w = None) (finished h')) /\
  Forall null_and_array (called h').
Proof.
  apply (run_invariant v8 eng
           (fun h => (Forall (fun w => worker_errmsg w = None) (work_queue h) /\
                      Forall (fun w => worker_errmsg w = None) (finished h)) /\
                     Forall null_and_array (called h))).
  intros ev h0 h1. apply step_completions.
Qed.

Lemma fresh_host_is_clean {E : Type} (created : E) :
  (Forall (fun w => worker_errmsg w = None) (work_queue (New created)) /\
   Forall (fun w => worker_errmsg w = None) (finished (New created))) /\
  Forall null_and_array (called (New created)).
Proof. repeat split; constructor. Qed.

(** C5. With an engine whose calls return and callbacks that can be
    called, every task requested is completed exactly once, whatever the
    order in which the pool and the loop get to the workers.  No event ends
    the process.  At every point the callbacks invoked so far, together
    with those of the workers that wait or are queued, are the callbacks of
    the requests, each as often as it was passed in.  Once the work is
    done, as it is when the queue is drained, the callbacks invoked are
    exactly those of the requests.  And every invocation has a null error
    and a payload, none an error. *)
Theorem every_task_completes_once {E : Type} (v8 : V8) (eng : Impl.t E)
    (created : E) (evs : list Event) :
  never_faults eng ->
  Forall callable (requested v8 evs) ->
  exists h,
    run v8 eng evs (New created) = Some h /\
    Permutation (callbacks_of h) (map worker_callback (requested v8 evs)) /\
    Forall null_and_array (called h) /\
    exists h',
      drain v8 eng h = Some h' /\
      work_queue h' = [] /\
      finished h' = [] /\
      Permutation (map callee (called h')) (map worker_callback (requested v8 evs)) /\
      Forall null_and_array (called h').
Proof.
  intros Hsound Hreq.
  destruct (sound_run v8 eng evs Hsound Hreq (New created)) as [h [Hrun Hh]];
    [split; constructor|].
  pose proof (run_callbacks v8 eng evs _ _ Hrun) as Hperm. cbn [app] in Hperm.
  pose proof (run_completions v8 eng evs _ _ (fresh_host_is_clean created) Hrun) as Hclean.
  exists h. split; [exact Hrun|]. split; [exact Hperm|]. split; [apply Hclean|].
  assert (Hnone : Forall callable
                    (requested v8 (repeat (Completes 0) (length (finished h)) ++
                                   repeat Serves (length (work_queue h)))))
    by (rewrite drain_asks_for_nothing; constructor).
  destruct (sound_run v8 eng _ Hsound Hnone h Hh) as [h' [Hdrain _]].
  exists h'. split; [exact Hdrain|].
  destruct (drain_leaves_nothing v8 eng h h' Hdrain) as [Hq Hf].
  split; [exact Hq|]. split; [exact Hf|]. split.
  - pose proof (run_callbacks v8 eng _ _ _ Hdrain) as Hperm'.
    rewrite drain_asks_for_nothing in Hperm'. unfold callbacks_of at 1 in Hperm'.
    rewrite Hq, Hf in Hperm'. cbn [app map] in Hperm'. rewrite !app_nil_r in Hperm'.
    now rewrite Hperm'.
  - apply (run_completions v8 eng _ _ _ Hclean Hdrain).
Qed.

Lemma wordlist_engine_never_faults : never_faults (wordlist_engine true).
Proof. split; intros; discriminate. Qed.

Lemma every_task_completes_once_witness :
  exists h h',
    run ascii_v8 (wordlist_engine true)
      [Calls js_checkSpellingAsync [VString [72; 101; 108; 111]%Z; VFunction 1];
       Calls js_getCorrectionsForMisspellingAsync [VString [116; 101; 104; 99]%Z; VFunction 2];
       Executes 1;
       Completes 0]
      (New ["tech"]) = Some h /\
    drain ascii_v8 (wordlist_engine true) h = Some h' /\
    Permutation (map callee (called h')) [VFunction 1; VFunction 2].
Proof.
  destruct (every_task_completes_once ascii_v8 (wordlist_engine true) ["tech"]
              [Calls js_checkSpellingAsync [VString [72; 101; 108; 111]%Z; VFunction 1];
               Calls js_getCorrectionsForMisspellingAsync
                 [VString [116; 101; 104; 99]%Z; VFunction 2];
               Executes 1;
               Completes 0])
    as [h [Hrun [_ [_ [h' [Hdrain [_ [_ [Hperm _]]]]]]]]].
  - exact wordlist_engine_never_faults.
  - repeat constructor.
  - exists h, h'. repeat split; assumption.
Defined.

Example completions_out_of_request_order :
  run ascii_v8 (wordlist_engine true)
    [Calls js_checkSpellingAsync [VString [72; 101; 108; 111]%Z; VFunction 1];
     Calls js_getCorrectionsForMisspellingAsync [VString [116; 101; 104; 99]%Z; VFunction 2];
     Executes 1; Executes 0; Completes 0; Completes 0]
    (New ["tech"]) =
  Some {| that := {| impl := {| state := ["tech"];
                                received := [asked_GetCorrectionsForMisspelling "tehc";
                                             asked_CheckSpelling [72; 101; 108; 111; 0]%Z] |};
                     dictData := None |};
          work_queue := [];
          finished := [];
          called := [{| callee := VFunction 2;
                        argv := [VNull; VArray [VString [116; 101; 99; 104]%Z]] |};
                     {| callee := VFunction 1;
                        argv := [VNull;
                                 VArray [VObject [("start", VInteger 0);
                                                  ("end", VInteger 4)]]] |}] |}.
Proof. reflexivity. Qed.

(** With the engine that faults no worker ever gets past [Execute]. *)
Lemma faulting_engine_completes_nothing (evs : list Event) (h h' : Host (list std_string)) :
  finished h = [] /\ called h = [] ->
  run ascii_v8 (wordlist_engine false) evs h = Some h' ->
  finished h' = [] /\ called h' = [].
Proof.
  apply (run_invariant ascii_v8 (wordlist_engine false)
           (fun h => finished h = [] /\ called h = [])).
  apply step_invariant.
  - intros m info h0 [Hf Hc].
    destruct (call_extends_queue ascii_v8 (wordlist_engine false) m info h0)
      as [more [_ [_ Hc']]].
    now rewrite call_keeps_finished, Hc'.
  - intros k h0 h1 HP Hx.
    apply execute_at_effect in Hx as [->|[w [w' [g' [_ [Hx _]]]]]]; [exact HP|].
    assert (Hfault : Execute (wordlist_engine false) w (impl (that h0)) = Faults)
      by (apply Execute_faults; destruct w; reflexivity).
    congruence.
  - intros k h0 h1 [Hf Hc] Hx.
    apply complete_at_effect in Hx as [->|[w [Hk _]]]; [now split|].
    rewrite Hf in Hk. destruct k; discriminate.
Qed.

(** Against C5 as it stands: a task is requested of an engine that faults;
    whatever happens next, its callback is invoked neither with a payload
    nor with an error. *)
Lemma faulting_task_is_never_completed :
  work_queue (snd (GetCorrectionsForMisspellingAsync ascii_v8
                     [VString [98]%Z; VFunction 2] (New (E := list string) []))) =
  [get_corrections (GetCorrectionsForMisspellingWorker.new (VFunction 2) "b")] /\
  ~ exists evs h' c,
      run ascii_v8 (wordlist_engine false) evs
        (snd (GetCorrectionsForMisspellingAsync ascii_v8
                [VString [98]%Z; VFunction 2] (New []))) = Some h' /\
      In c (called h') /\
      (success_for
         (get_corrections (GetCorrectionsForMisspellingWorker.new (VFunction 2) "b")) c \/
       error_for
         (get_corrections (GetCorrectionsForMisspellingWorker.new (VFunction 2) "b")) c).
Proof.
  split; [reflexivity|].
  intros [evs [h' [c [Hrun [Hin _]]]]].
  apply faulting_engine_completes_nothing in Hrun as [_ Hc]; [|now split].
  rewrite Hc in Hin. destruct Hin.
Qed.

(** C6. When the engine call of a queued worker faults in [Execute],
    nothing captures the fault.  No error message has been set for the
    worker, and [Execute] sets none.  The process ends at that step,
    whatever would have come after.  So all that is ever delivered is what
    had been delivered before: completions with a null error and an array,
    none an error, and fewer of them than tasks were requested, the
    faulting task's not among them. *)
Theorem engine_fault_is_not_captured {E : Type} (v8 : V8) (eng : Impl.t E)
    (created : E) (evs : list Event) (h : Host E) (k : nat) (w : AsyncWorker) :
  run v8 eng evs (New created) = Some h ->
  nth_error (work_queue h) k = Some w ->
  engine_faults_on eng w (state (impl (that h))) ->
  (forall later, run v8 eng (evs ++ Executes k :: later) (New created) = None) /\
  worker_errmsg w = None /\
  (forall w0 g w1 g1,
      Execute eng w0 g = Returns (w1, g1) -> worker_errmsg w1 = worker_errmsg w0) /\
  Forall null_and_array (called h) /\
  length (called h) < length (requested v8 evs).
Proof.
  intros Hrun Hk Hfault.
  pose proof (run_completions v8 eng evs _ _ (fresh_host_is_clean created) Hrun)
    as [[Hq _] Hnull].
  split; [|split; [|split; [|split]]].
  - intro later. rewrite run_app, Hrun. cbn [run step]. unfold execute_at.
    rewrite Hk. apply Execute_faults in Hfault. now rewrite Hfault.
  - now destruct (Forall_remove_at _ _ _ _ Hk Hq).
  - intros w0 g w1 g1 Hx. now apply Execute_keeps in Hx.
  - exact Hnull.
  - pose proof (Permutation_length (run_callbacks v8 eng evs _ _ Hrun)) as Hlen.
    cbn [app] in Hlen. unfold callbacks_of in Hlen.
    rewrite !length_app, !length_map, length_app in Hlen.
    assert (Hpos : k < length (work_queue h)) by (apply nth_error_Some; congruence).
    cbn [New called finished work_queue app length] in Hlen. lia.
Qed.

Lemma engine_fault_is_not_captured_witness :
  run ascii_v8 (wordlist_engine false)
    ([Calls js_checkSpellingAsync [VString [97]%Z; VFunction 0]] ++
     Executes 0 :: [Completes 0])
    (New []) = None.
Proof.
  apply (engine_fault_is_not_captured ascii_v8 (wordlist_engine false) []
           [Calls js_checkSpellingAsync [VString [97]%Z; VFunction 0]]
           (snd (CheckSpellingAsync [VString [97]%Z; VFunction 0] (New [])))
           0 (check_spelling (CheckSpellingWorker.new (VFunction 0) [97; 0]%Z))).
  - reflexivity.
  - reflexivity.
  - reflexivity.
Defined.

(** Against C6 as it stands: with an engine that faults, two tasks are
    requested; whichever worker a pool thread takes up, the process ends;
    and however the run goes on from the start, no callback is ever
    invoked, with an error or otherwise. *)
Lemma engine_fault_ends_the_process :
  run ascii_v8 (wordlist_engine false)
    [Calls js_checkSpellingAsync [VString [97]%Z; VFunction 1];
     Calls js_getCorrectionsForMisspellingAsync [VString [98]%Z; VFunction 2]]
    (New []) =
  Some {| that := {| impl := {| state := []; received := [] |}; dictData := None |};
          work_queue :=
            [check_spelling (CheckSpellingWorker.new (VFunction 1) [97; 0]%Z);
             get_corrections (GetCorrectionsForMisspellingWorker.new (VFunction 2) "b")];
          finished := [];
          called := [] |} /\
  run ascii_v8 (wordlist_engine false)
    [Calls js_checkSpellingAsync [VString [97]%Z; VFunction 1];
     Calls js_getCorrectionsForMisspellingAsync [VString [98]%Z; VFunction 2];
     Executes 0]
    (New []) = None /\
  run ascii_v8 (wordlist_engine false)
    [Calls js_checkSpellingAsync [VString [97]%Z; VFunction 1];
     Calls js_getCorrectionsForMisspellingAsync [VString [98]%Z; VFunction 2];
     Executes 1]
    (New []) = None /\
  ~ exists evs h c,
      run ascii_v8 (wordlist_engine false) evs (New []) = Some h /\
      In c (called h).
Proof.
  split; [reflexivity|]. split; [reflexivity|]. split; [reflexivity|].
  intros [evs [h [c [Hrun Hin]]]].
  apply faulting_engine_completes_nothing in Hrun as [_ Hc]; [|now split].
  rewrite Hc in Hin. destruct Hin.
Qed.

(** ** The pinned buffer *)

(** C8. The buffer given to setDictionary is held in [dictData] from that
    call on, through every later event of the controller's life, until a
    setDictionary call that gives a buffer again puts its own there. *)
Theorem dictData_kept_until_replaced {E : Type} (v8 : V8) (eng : Impl.t E)
    (info : list Value) (h : Host E) (evs : list Event) (h1 : Host E) :
  1 < length info ->
  Buffer_HasInstance (arg info 1) = true ->
  forallb (fun ev => negb (repins ev)) evs = true ->
  run v8 eng evs (snd (SetDictionary v8 eng info h)) = Some h1 ->
  pinned (that (snd (SetDictionary v8 eng info h))) = [arg info 1] /\
  pinned (that h1) = [arg info 1].
Proof.
  intros Hlen Hbuf Hevs Hrun. unfold pinned.
  rewrite (dictData_stays v8 eng evs Hevs _ _ Hrun).
  rewrite SetDictionary_pins by assumption. now split.
Qed.

Lemma dictData_kept_until_replaced_witness :
  exists h1,
    run ascii_v8 (wordlist_engine true)
      [Calls js_setDictionary [VString [100; 101]%Z];
       Calls js_checkSpellingAsync [VString [97]%Z; VFunction 0];
       Serves]
      (snd (SetDictionary ascii_v8 (wordlist_engine true)
              [VString [101; 110]%Z; VBuffer 1 [Byte.x01]] (New []))) = Some h1 /\
    pinned (that h1) = [VBuffer 1 [Byte.x01]].
Proof.
  eexists. split; [reflexivity|].
  apply (dictData_kept_until_replaced ascii_v8 (wordlist_engine true)
           [VString [101; 110]%Z; VBuffer 1 [Byte.x01]] (New [])
           [Calls js_setDictionary [VString [100; 101]%Z];
            Calls js_checkSpellingAsync [VString [97]%Z; VFunction 0];
            Serves]).
  - simpl. lia.
  - reflexivity.
  - reflexivity.
  - reflexivity.
Defined.

(** Against C8 as it stands: after a second setDictionary call with another
    buffer the controller, still alive, holds the second buffer and no
    longer the first. *)
Lemma earlier_buffer_is_let_go :
  exists h,
    run ascii_v8 (wordlist_engine true)
      [Calls js_setDictionary [VString [101; 110]%Z; VBuffer 1 [Byte.x01]];
       Calls js_setDictionary [VString [100; 101]%Z; VBuffer 2 [Byte.x02]]]
      (New []) = Some h /\
    pinned (that h) = [VBuffer 2 [Byte.x02]] /\
    ~ In (VBuffer 1 [Byte.x01]) (pinned (that h)).
Proof.
  eexists. split; [reflexivity|]. split; [reflexivity|].
  intros [H|[]]. discriminate H.
Qed.

(** C10. At every point of a controller's life [dictData] pins at most one
    value, a Buffer; and a setDictionary call that gives a buffer leaves
    exactly that buffer pinned, whatever was pinned before, so that a
    buffer given earlier is no longer among the pinned ones. *)
Theorem at_most_one_buffer_pinned {E : Type} (v8 : V8) (eng : Impl.t E)
    (created : E) (evs : list Event) (h : Host E) :
  run v8 eng evs (New created) = Some h ->
  length (pinned (that h)) <= 1 /\
  Forall (fun b => Buffer_HasInstance b = true) (pinned (that h)) /\
  forall info : list Value,
    1 < length info ->
    Buffer_HasInstance (arg info 1) = true ->
    pinned (that (snd (SetDictionary v8 eng info h))) = [arg info 1] /\
    forall earlier,
      In earlier (pinned (that h)) -> earlier <> arg info 1 ->
      ~ In earlier (pinned (that (snd (SetDictionary v8 eng info h)))).
Proof.
  intro Hrun. split; [|split].
  - unfold pinned. destruct (dictData (that h)); simpl; lia.
  - eapply only_buffers_pinned, Hrun.
  - intros info Hlen Hbuf.
    assert (Hp : pinned (that (snd (SetDictionary v8 eng info h))) = [arg info 1]).
    { unfold pinned. now rewrite SetDictionary_pins. }
    split; [exact Hp|].
    intros earlier _ Hne Hin. rewrite Hp in Hin.
    destruct Hin as [Heq|[]]. now apply Hne.
Qed.

Lemma at_most_one_buffer_pinned_witness :
  pinned (that (snd (SetDictionary ascii_v8 (wordlist_engine true)
                       [VString [100; 101]%Z; VBuffer 2 [Byte.x02]]
                       (snd (SetDictionary ascii_v8 (wordlist_engine true)
                               [VString [101; 110]%Z; VBuffer 1 [Byte.x01]] (New []))))))
  = [VBuffer 2 [Byte.x02]].
Proof.
  apply (at_most_one_buffer_pinned ascii_v8 (wordlist_engine true) []
           [Calls js_setDictionary [VString [101; 110]%Z; VBuffer 1 [Byte.x01]]]
           (snd (SetDictionary ascii_v8 (wordlist_engine true)
                   [VString [101; 110]%Z; VBuffer 1 [Byte.x01]] (New [])))).
  - reflexivity.
  - simpl. lia.
  - reflexivity.
Defined.

(** ** Further properties of the binding *)


(** X2. No method reads past its second argument: a call with further
    arguments does what the call with the first two does. *)
Theorem arguments_past_the_second_are_ignored {E : Type} (v8 : V8) (eng : Impl.t E)
    (m : Method) (a0 a1 : Value) (rest : list Value) (h : Host E) :
  Init v8 eng m (a0 :: a1 :: rest) h = Init v8 eng m [a0; a1] h.
Proof. destruct m; reflexivity. Qed.

(** X3. The questions the engine is asked on the calling thread are, in
    order, those of the calls made: setDictionary asks for the language, or
    with a buffer for the buffer's bytes and not for the language;
    isMisspelled, add and remove ask about the converted word;
    getAvailableDictionaries asks for ["."]; a call that is turned away and
    the two asynchronous calls ask nothing there. *)
Theorem caller_questions_in_call_order {E : Type} (v8 : V8) (eng : Impl.t E)
    (evs : list Event) (h h' : Host E) :
  run v8 eng evs h = Some h' ->
  filter (fun c => negb (from_pool c)) (received (impl (that h'))) =
  filter (fun c => negb (from_pool c)) (received (impl (that h))) ++
  flat_map (fun ev => option_list (question v8 ev)) evs.
Proof.
  apply (run_tally v8 eng
           (fun h => filter (fun c => negb (from_pool c)) (received (impl (that h))))
           (fun ev => option_list (question v8 ev))).
  apply step_caller_questions.
Qed.

Lemma caller_questions_in_call_order_witness :
  exists h',
    run ascii_v8 (wordlist_engine true)
      [Calls js_setDictionary [VString [101; 110]%Z; VBuffer 1 [Byte.x01]];
       Calls js_add [];
       Calls js_checkSpellingAsync [VString [97]%Z; VFunction 0];
       Calls js_add [VString [97]%Z];
       Serves;
       Calls js_isMisspelled [VString [97]%Z]]
      (New []) = Some h' /\
    filter (fun c => negb (from_pool c)) (received (impl (that h'))) =
    [asked_SetDictionaryToContents [Byte.x01]; asked_Add "a"; asked_IsMisspelled "a"].
Proof.
  eexists. split; [reflexivity|].
  apply (caller_questions_in_call_order ascii_v8 (wordlist_engine true)
           [Calls js_setDictionary [VString [101; 110]%Z; VBuffer 1 [Byte.x01]];
            Calls js_add [];
            Calls js_checkSpellingAsync [VString [97]%Z; VFunction 0];
            Calls js_add [VString [97]%Z];
            Serves;
            Calls js_isMisspelled [VString [97]%Z]]
           (New [])).
  reflexivity.
Defined.

(** X4. No request is lost or answered twice, in whatever order the
    workers are taken up and completed.  Through any run, the callbacks
    invoked so far together with those of the workers that wait for the
    loop or are still queued are the ones there were at the start together
    with the second arguments of the asynchronous calls that queued a
    worker since, each as often as it was passed in; and the invocations
    made earlier stay, later ones are added behind them. *)
Theorem callbacks_are_accounted_for {E : Type} (v8 : V8) (eng : Impl.t E)
    (evs : list Event) (h h' : Host E) :
  run v8 eng evs h = Some h' ->
  Permutation (callbacks_of h') (callbacks_of h ++ map worker_callback (requested v8 evs)) /\
  exists more, called h' = called h ++ more.
Proof.
  intro Hrun. split; [exact (run_callbacks v8 eng evs h h' Hrun)|].
  revert h Hrun. induction evs as [|ev evs IH]; intros h Hrun; simpl in Hrun.
  - injection Hrun as <-. exists []. now rewrite app_nil_r.
  - destruct (step v8 eng ev h) as [h1|] eqn:Hs; [|discriminate].
    destruct (IH _ Hrun) as [more Hmore].
    assert (H1 : exists first, called h1 = called h ++ first).
    { destruct (is_call ev) eqn:Hcall.
      - destruct ev as [m info| | |]; try discriminate. cbn [step] in Hs.
        injection Hs as <-.
        destruct (call_extends_queue v8 eng m info h) as [q [_ [_ Hc]]].
        exists []. now rewrite app_nil_r.
      - eapply (pool_step_cases v8 eng
                  (fun a b => exists first, called b = called a ++ first));
          [ | | | | exact Hcall | exact Hs].
        + intro a. exists []. now rewrite app_nil_r.
        + intros a b c [x Hx] [y Hy]. exists (x ++ y). now rewrite Hy, Hx, app_assoc.
        + intros k a b Hx.
          apply execute_at_effect in Hx as [->|[w [w' [g' [_ [_ ->]]]]]];
            exists []; now rewrite app_nil_r.
        + intros k a b Hx.
          apply complete_at_effect in Hx as [->|[w [_ [_ ->]]]];
            [exists []; now rewrite app_nil_r | now eexists]. }
    destruct H1 as [first Hfirst]. exists (first ++ more).
    now rewrite Hmore, Hfirst, app_assoc.
Qed.

Lemma callbacks_are_accounted_for_witness :
  exists h',
    run ascii_v8 (wordlist_engine true)
      [Calls js_checkSpellingAsync [VString [97]%Z; VFunction 1];
       Calls js_checkSpellingAsync [VString []; VFunction 2];
       Calls js_getCorrectionsForMisspellingAsync [VString [98]%Z; VFunction 3];
       Executes 1;
       Completes 0;
       Calls js_getCorrectionsForMisspellingAsync [VString []; VFunction 4];
       Executes 0]
      (New []) = Some h' /\
    map callee (called h') = [VFunction 3] /\
    Permutation (callbacks_of h') [VFunction 1; VFunction 3; VFunction 4].
Proof.
  eexists. split; [reflexivity|]. split; [reflexivity|].
  exact (proj1 (callbacks_are_accounted_for ascii_v8 (wordlist_engine true)
           [Calls js_checkSpellingAsync [VString [97]%Z; VFunction 1];
            Calls js_checkSpellingAsync [VString []; VFunction 2];
            Calls js_getCorrectionsForMisspellingAsync [VString [98]%Z; VFunction 3];
            Executes 1;
            Completes 0;
            Calls js_getCorrectionsForMisspellingAsync [VString []; VFunction 4];
            Executes 0]
           (New []) _ eq_refl)).
Defined.

(** X5. Each request reaches the engine once, in whatever order the pool
    threads get there.  Through any run, the questions the engine has been
    asked from the pool together with those of the workers still queued
    are the ones there were at the start together with, for each
    checkSpellingAsync call that queued a worker since, its text followed
    by a zero, and for each getCorrectionsForMisspellingAsync call that
    queued one, its converted word: none is asked twice, none is dropped,
    and nothing else is asked from the pool. *)
Theorem pool_questions_are_accounted_for {E : Type} (v8 : V8) (eng : Impl.t E)
    (evs : list Event) (h h' : Host E) :
  run v8 eng evs h = Some h' ->
  Permutation (pool_questions_of h')
    (pool_questions_of h ++ map worker_question (requested v8 evs)).
Proof.
  intro Hrun. rewrite <- requested_questions.
  apply (run_tally_perm v8 eng pool_questions_of
           (fun ev => map worker_question (option_list (queued_by v8 ev)))
           (step_pool_questions v8 eng) evs h h' Hrun).
Qed.

Lemma pool_questions_are_accounted_for_witness :
  exists h',
    run ascii_v8 (wordlist_engine true)
      [Calls js_checkSpellingAsync [VString [97]%Z; VFunction 1];
       Calls js_add [VString [97]%Z];
       Calls js_getCorrectionsForMisspellingAsync [VString [98]%Z; VFunction 3];
       Executes 1]
      (New []) = Some h' /\
    filter from_pool (received (impl (that h'))) = [asked_GetCorrectionsForMisspelling "b"] /\
    Permutation (pool_questions_of h')
      [asked_CheckSpelling [97; 0]%Z; asked_GetCorrectionsForMisspelling "b"].
Proof.
  eexists. split; [reflexivity|]. split; [reflexivity|].
  apply (pool_questions_are_accounted_for ascii_v8 (wordlist_engine true)
           [Calls js_checkSpellingAsync [VString [97]%Z; VFunction 1];
            Calls js_add [VString [97]%Z];
            Calls js_getCorrectionsForMisspellingAsync [VString [98]%Z; VFunction 3];
            Executes 1]
           (New [])).
  reflexivity.
Defined.

(** X6. No completion ever carries an error: every invocation made during
    a controller's life has exactly two arguments, null and an array.  The
    error form of Nan's [WorkComplete] is never taken, because no worker is
    queued with, or given, an error message. *)
Theorem completions_never_carry_an_error {E : Type} (v8 : V8) (eng : Impl.t E)
    (created : E) (evs : list Event) (h : Host E) :
  run v8 eng evs (New created) = Some h ->
  Forall null_and_array (called h).
Proof.
  intro Hrun.
  apply (run_completions v8 eng evs _ _ (fresh_host_is_clean created) Hrun).
Qed.

Lemma completions_never_carry_an_error_witness :
  exists h,
    run ascii_v8 (wordlist_engine true)
      [Calls js_checkSpellingAsync [VString [97]%Z; VFunction 1];
       Calls js_getCorrectionsForMisspellingAsync [VInteger 7; VFunction 2];
       Executes 1; Serves; Completes 0]
      (New ["a"]) = Some h /\
    length (called h) = 2 /\
    Forall null_and_array (called h).
Proof.
  eexists. split; [reflexivity|]. split; [reflexivity|].
  apply (completions_never_carry_an_error ascii_v8 (wordlist_engine true) ["a"]
           [Calls js_checkSpellingAsync [VString [97]%Z; VFunction 1];
            Calls js_getCorrectionsForMisspellingAsync [VInteger 7; VFunction 2];
            Executes 1; Serves; Completes 0]).
  reflexivity.
Defined.

(** X7. Whatever offsets the worker holds, the callback of a spelling check
    is given, for each range in turn, an object whose start and end are the
    range's offsets reduced modulo 2^32, as the [uint32_t] locals of the
    loop leave them; the array has one element per range. *)
Theorem delivered_offsets_are_32_bit (w : CheckSpellingWorker.t) :
  CheckSpellingWorker.HandleOKCallback w =
  {| callee := CheckSpellingWorker.callback w;
     argv := [VNull;
              VArray (map (fun r => VObject [("start", VInteger (start r mod 2 ^ 32));
                                             ("end", VInteger (end_ r mod 2 ^ 32))])
                        (CheckSpellingWorker.misspelled_ranges w))] |}.
Proof. apply CheckSpellingWorker_HandleOKCallback_argv. Qed.

Example offsets_past_32_bits_wrap :
  argv (CheckSpellingWorker.HandleOKCallback
          {| CheckSpellingWorker.callback := VFunction 0;
             CheckSpellingWorker.errmsg := None;
             CheckSpellingWorker.text := [];
             CheckSpellingWorker.misspelled_ranges :=
               [{| start := 3; end_ := 2 ^ 32 + 5 |}] |}) =
  [VNull; VArray [VObject [("start", VInteger 3); ("end", VInteger 5)]]].
Proof. reflexivity. Qed.

(** X8. At every point of a run [dictData] holds the buffer of the latest
    setDictionary call that passed one, or what it held at the start when
    there was none: calls of other methods, setDictionary calls without
    buffer or turned away, and the serving of workers leave it alone. *)
Theorem dictData_is_last_buffer {E : Type} (v8 : V8) (eng : Impl.t E)
    (evs : list Event) (h h' : Host E) :
  run v8 eng evs h = Some h' ->
  dictData (that h') = last_pinned evs (dictData (that h)).
Proof.
  revert h. unfold last_pinned.
  induction evs as [|ev evs IH]; intros h Hrun; simpl in Hrun.
  - now injection Hrun as <-.
  - destruct (step v8 eng ev h) as [h1|] eqn:Hs; [|discriminate].
    cbn [fold_left]. rewrite (IH _ Hrun), (step_dictData v8 eng _ _ _ Hs).
    reflexivity.
Qed.

Lemma dictData_is_last_buffer_witness :
  exists h',
    run ascii_v8 (wordlist_engine true)
      [Calls js_setDictionary [VString [101; 110]%Z; VBuffer 1 [Byte.x01]];
       Calls js_setDictionary [VString [100; 101]%Z; VBuffer 2 [Byte.x02]];
       Calls js_setDictionary [VString [102; 114]%Z];
       Calls js_setDictionary [VString [102; 114]%Z; VString [120]%Z];
       Calls js_setDictionary []]
      (New []) = Some h' /\
    dictData (that h') = Some (VBuffer 2 [Byte.x02]).
Proof.
  eexists. split; [reflexivity|].
  apply (dictData_is_last_buffer ascii_v8 (wordlist_engine true)
           [Calls js_setDictionary [VString [101; 110]%Z; VBuffer 1 [Byte.x01]];
            Calls js_setDictionary [VString [100; 101]%Z; VBuffer 2 [Byte.x02]];
            Calls js_setDictionary [VString [102; 114]%Z];
            Calls js_setDictionary [VString [102; 114]%Z; VString [120]%Z];
            Calls js_setDictionary []]
           (New [])).
  reflexivity.
Defined.

(** X9. A task meets the engine as it is when a pool thread runs its
    [Execute], which may be before or after a call made after the request:
    the request does not fix the state of the engine.  With a word added
    right after a request for corrections, the callback is given the
    corrections of the engine that has the word when the pool thread gets
    there after the add, and those of the engine that has not when it gets
    there before, though the callback is invoked after the add both
    times. *)
Theorem task_meets_engine_when_executed {E : Type} (v8 : V8) (eng : Impl.t E)
    (h : Host E) (word added : list uint16_t) (callback : Value)
    (before after : list std_string) (e1 e2 : E) :
  work_queue h = [] ->
  finished h = [] ->
  IsFunction callback = true ->
  Impl.GetCorrectionsForMisspelling eng (Utf8Value v8 (VString word))
    (state (impl (that h))) = Returns (before, e1) ->
  Impl.GetCorrectionsForMisspelling eng (Utf8Value v8 (VString word))
    (Impl.Add eng (Utf8Value v8 (VString added)) (state (impl (that h))))
  = Returns (after, e2) ->
  (exists h',
      run v8 eng
        [Calls js_getCorrectionsForMisspellingAsync [VString word; callback];
         Calls js_add [VString added];
         Executes 0;
         Completes 0] h = Some h' /\
      called h' = called h ++
        [{| callee := callback; argv := [VNull; VArray (map (js_string v8) after)] |}]) /\
  (exists h',
      run v8 eng
        [Calls js_getCorrectionsForMisspellingAsync [VString word; callback];
         Executes 0;
         Calls js_add [VString added];
         Completes 0] h = Some h' /\
      called h' = called h ++
        [{| callee := callback; argv := [VNull; VArray (map (js_string v8) before)] |}]).
Proof.
  intros Hq Hf Hfun Hbefore Hafter.
  assert (Hw : forall cs,
             WorkComplete v8
               (get_corrections
                  {| GetCorrectionsForMisspellingWorker.callback := callback;
                     GetCorrectionsForMisspellingWorker.errmsg := None;
                     GetCorrectionsForMisspellingWorker.word := Utf8Value v8 (VString word);
                     GetCorrectionsForMisspellingWorker.corrections := cs |}) =
             {| callee := callback; argv := [VNull; VArray (map (js_string v8) cs)] |}).
  { intro cs. unfold WorkComplete.
    cbn [worker_errmsg GetCorrectionsForMisspellingWorker.errmsg HandleOKCallback].
    now rewrite GetCorrectionsForMisspellingWorker_HandleOKCallback_argv. }
  split.
  - cbn [run step Init snd GetCorrectionsForMisspellingAsync Add length Nat.ltb Nat.leb
         arg nth].
    unfold execute_at.
    cbn [work_queue with_that AsyncQueueWorker that called impl with_impl finished].
    rewrite Hq. cbn [app nth_error].
    unfold Execute, GetCorrectionsForMisspellingWorker.Execute,
      impl_GetCorrectionsForMisspelling, impl_Add, GetCorrectionsForMisspellingWorker.new.
    cbn [GetCorrectionsForMisspellingWorker.word GetCorrectionsForMisspellingWorker.callback
         GetCorrectionsForMisspellingWorker.errmsg state asked].
    rewrite Hafter. unfold complete_at, complete.
    cbn [work_queue that called impl with_impl finished].
    rewrite Hf. cbn [app nth_error]. rewrite Hw. cbn [callee]. rewrite Hfun.
    eexists. split; reflexivity.
  - cbn [run step Init snd GetCorrectionsForMisspellingAsync Add length Nat.ltb Nat.leb
         arg nth].
    unfold execute_at.
    cbn [work_queue with_that AsyncQueueWorker that called impl with_impl finished].
    rewrite Hq. cbn [app nth_error].
    unfold Execute, GetCorrectionsForMisspellingWorker.Execute,
      impl_GetCorrectionsForMisspelling, impl_Add, GetCorrectionsForMisspellingWorker.new.
    cbn [GetCorrectionsForMisspellingWorker.word GetCorrectionsForMisspellingWorker.callback
         GetCorrectionsForMisspellingWorker.errmsg state asked].
    rewrite Hbefore. unfold complete_at, complete.
    cbn [run step Init snd Add length Nat.ltb Nat.leb arg nth
         work_queue with_that that called impl with_impl finished].
    rewrite Hf. cbn [app nth_error]. rewrite Hw. cbn [callee]. rewrite Hfun.
    eexists. split; reflexivity.
Qed.

Lemma task_meets_engine_when_executed_witness :
  (exists h',
      run ascii_v8 (wordlist_engine true)
        [Calls js_getCorrectionsForMisspellingAsync
           [VString [116; 101; 104; 99]%Z; VFunction 0];
         Calls js_add [VString [116; 101; 99; 104]%Z];
         Executes 0;
         Completes 0] (New []) = Some h' /\
      called h' =
        [{| callee := VFunction 0;
            argv := [VNull; VArray [VString [116; 101; 99; 104]%Z]] |}]) /\
  (exists h',
      run ascii_v8 (wordlist_engine true)
        [Calls js_getCorrectionsForMisspellingAsync
           [VString [116; 101; 104; 99]%Z; VFunction 0];
         Executes 0;
         Calls js_add [VString [116; 101; 99; 104]%Z];
         Completes 0] (New []) = Some h' /\
      called h' = [{| callee := VFunction 0; argv := [VNull; VArray []] |}]).
Proof.
  apply (task_meets_engine_when_executed ascii_v8 (wordlist_engine true) (New [])
           [116; 101; 104; 99]%Z [116; 101; 99; 104]%Z (VFunction 0)
           [] ["tech"] [] ["tech"]); reflexivity.
Defined.

(** X10. The engine is never asked to check an empty text, nor one without
    the terminator: every text that has reached CheckSpelling during a
    controller's life is a non-empty sequence of code units followed by a
    zero. *)
Theorem checked_texts_are_terminated {E : Type} (v8 : V8) (eng : Impl.t E)
    (created : E) (evs : list Event) (h : Host E) :
  run v8 eng evs (New created) = Some h ->
  Forall well_asked (received (impl (that h))).
Proof.
  intro Hrun.
  enough (H : Forall (fun w => well_asked (worker_question w)) (work_queue h) /\
              Forall well_asked (received (impl (that h)))) by apply H.
  revert Hrun.
  apply (run_invariant v8 eng
           (fun h => Forall (fun w => well_asked (worker_question w)) (work_queue h) /\
                     Forall well_asked (received (impl (that h))))).
  - apply step_invariant.
    + intros m info h0 [Hq Hr].
      destruct (call_effect v8 eng m info h0) as [Hq' [_ [Hr' _]]].
      rewrite Hq', Hr'. split; apply Forall_app; split; try assumption.
      * destruct m; unfold queued_by; method_cases; repeat constructor.
        exists (units_of (arg info 0)). split; [|reflexivity].
        intro Hnil. unfold String_Length in *. now rewrite Hnil in *.
      * destruct m; unfold question; method_cases; repeat constructor.
    + intros k h0 h1 [Hq Hr] Hx.
      apply execute_at_effect in Hx as [->|[w [w' [g' [Hk [Hx ->]]]]]]; [now split|].
      cbn [work_queue that impl with_impl].
      destruct (Forall_remove_at _ _ _ _ Hk Hq) as [Hw Hrest].
      split; [exact Hrest|].
      rewrite (Execute_asks eng _ _ _ _ Hx). apply Forall_app. split; [exact Hr|].
      now constructor.
    + intros k h0 h1 HP Hx.
      apply complete_at_effect in Hx as [->|[w [_ [_ ->]]]]; exact HP.
  - split; constructor.
Qed.

Lemma checked_texts_are_terminated_witness :
  exists h,
    run ascii_v8 (wordlist_engine true)
      [Calls js_checkSpellingAsync [VString []; VFunction 0];
       Calls js_checkSpellingAsync [VString [97; 0; 98]%Z; VFunction 1];
       Serves; Serves]
      (New []) = Some h /\
    received (impl (that h)) = [asked_CheckSpelling [97; 0; 98; 0]%Z] /\
    Forall well_asked (received (impl (that h))).
Proof.
  eexists. split; [reflexivity|]. split; [reflexivity|].
  apply (checked_texts_are_terminated ascii_v8 (wordlist_engine true) []
           [Calls js_checkSpellingAsync [VString []; VFunction 0];
            Calls js_checkSpellingAsync [VString [97; 0; 98]%Z; VFunction 1];
            Serves; Serves]).
  reflexivity.
Defined.

Lemma last_contents_app (asked : list EngineCall) (o : option EngineCall) :
  last_contents (asked ++ option_list o) =
  match o with
  | Some (asked_SetDictionaryToContents data) => Some data
  | _ => last_contents asked
  end.
Proof.
  unfold last_contents. rewrite fold_left_app.
  destruct o as [[]|]; reflexivity.
Qed.

(** X11. The buffer whose bytes the engine holds is the buffer that is
    pinned.  At every point of a controller's life, the bytes last given to
    the engine as dictionary contents are the bytes of the buffer in
    [dictData], and there is nothing in [dictData] as long as the engine
    has been given no contents. *)
Theorem engine_contents_are_pinned {E : Type} (v8 : V8) (eng : Impl.t E)
    (created : E) (evs : list Event) (h : Host E) :
  run v8 eng evs (New created) = Some h ->
  last_contents (received (impl (that h))) = option_map Buffer_Data (dictData (that h)).
Proof.
  apply (run_invariant v8 eng
           (fun h => last_contents (received (impl (that h))) =
                     option_map Buffer_Data (dictData (that h)))).
  - apply step_invariant.
    + intros m info h0 HP.
      destruct (call_effect v8 eng m info h0) as [_ [_ [Hr Hd]]].
      rewrite Hr, Hd, last_contents_app.
      destruct m; unfold question, pinned_by; method_cases; try exact HP; reflexivity.
    + intros k h0 h1 HP Hx.
      apply execute_at_effect in Hx as [->|[w [w' [g' [_ [Hx ->]]]]]]; [exact HP|].
      cbn [that impl with_impl dictData]. rewrite (Execute_asks eng _ _ _ _ Hx).
      change [worker_question w] with (option_list (Some (worker_question w))).
      rewrite last_contents_app. destruct w; exact HP.
    + intros k h0 h1 HP Hx.
      apply complete_at_effect in Hx as [->|[w [_ [_ ->]]]]; exact HP.
  - reflexivity.
Qed.

Lemma engine_contents_are_pinned_witness :
  exists h,
    run ascii_v8 (wordlist_engine true)
      [Calls js_setDictionary [VString [101; 110]%Z; VBuffer 1 [Byte.x01]];
       Calls js_setDictionary [VString [100; 101]%Z; VBuffer 2 [Byte.x02; Byte.x03]];
       Calls js_setDictionary [VString [102; 114]%Z];
       Calls js_isMisspelled [VString [97]%Z]]
      (New []) = Some h /\
    last_contents (received (impl (that h))) = Some [Byte.x02; Byte.x03] /\
    dictData (that h) = Some (VBuffer 2 [Byte.x02; Byte.x03]).
Proof.
  eexists. split; [reflexivity|]. split; [|reflexivity].
  apply (engine_contents_are_pinned ascii_v8 (wordlist_engine true) []
           [Calls js_setDictionary [VString [101; 110]%Z; VBuffer 1 [Byte.x01]];
            Calls js_setDictionary [VString [100; 101]%Z; VBuffer 2 [Byte.x02; Byte.x03]];
            Calls js_setDictionary [VString [102; 114]%Z];
            Calls js_isMisspelled [VString [97]%Z]]).
  reflexivity.
Defined.

(** X12. Neither a method nor [Execute] invokes a callback.  Over any run
    in which the loop thread completes no worker, whatever methods are
    called and whatever workers the pool threads run, the invocations made
    stay as they were: a completion is only ever delivered from the loop
    thread, after the call that requested it has returned. *)
Theorem calls_invoke_no_callback {E : Type} (v8 : V8) (eng : Impl.t E)
    (evs : list Event) (h h' : Host E) :
  forallb (fun ev => negb (completes ev)) evs = true ->
  run v8 eng evs h = Some h' ->
  called h' = called h.
Proof.
  revert h. induction evs as [|ev evs IH]; intros h Hevs Hrun; simpl in *.
  - now injection Hrun as <-.
  - apply andb_prop in Hevs as [Hev Hevs].
    destruct (step v8 eng ev h) as [h1|] eqn:Hs; [|discriminate].
    rewrite (IH _ Hevs Hrun).
    destruct ev as [m info| |k|k]; try discriminate; cbn [step] in Hs.
    + injection Hs as <-.
      now destruct (call_extends_queue v8 eng m info h) as [q [_ [_ Hc]]].
    + apply execute_at_effect in Hs as [->|[w [w' [g' [_ [_ ->]]]]]]; reflexivity.
Qed.

Lemma calls_invoke_no_callback_witness :
  exists h',
    run ascii_v8 (wordlist_engine true)
      [Calls js_checkSpellingAsync [VString [97]%Z; VFunction 1];
       Calls js_getCorrectionsForMisspellingAsync [VString [98]%Z; VFunction 2];
       Executes 1;
       Calls js_isMisspelled [VString [97]%Z];
       Executes 0]
      (New []) = Some h' /\
    length (finished h') = 2 /\
    called h' = [].
Proof.
  eexists. split; [reflexivity|]. split; [reflexivity|].
  apply (calls_invoke_no_callback ascii_v8 (wordlist_engine true)
           [Calls js_checkSpellingAsync [VString [97]%Z; VFunction 1];
            Calls js_getCorrectionsForMisspellingAsync [VString [98]%Z; VFunction 2];
            Executes 1;
            Calls js_isMisspelled [VString [97]%Z];
            Executes 0]
           (New [])).
  - reflexivity.
  - reflexivity.
Defined.
